(** * F5-TTS-Arabic: the Gradio front end [infer_gradio.py]

    A shallow embedding of the text preprocessing and of the event handlers
    of [src/f5_tts/infer/infer_gradio.py], with the properties the
    specification states about them. *)

From Stdlib Require Import ZArith NArith QArith Ascii String Lia.
From stdpp Require Import base option list gmap.
From Equations Require Import Equations.

#[local] Set Warnings "-clear-no-such-hyp".
Local Open Scope N_scope.

(** ** Python strings

    A Python [str] is a sequence of Unicode code points. *)

Module Py.

Definition char := N.
Definition str := list char.

(** ASCII literal: the code points of the bytes of [s]. *)
Definition lit (s : string) : str :=
  List.map N_of_ascii (list_ascii_of_string s).

Definition LF : char := 10.
Definition SPACE : char := 32.
Definition LBRACE : char := 123.
Definition RBRACE : char := 125.

(** [str.isspace] for one code point: the characters CPython's
    [_PyUnicode_IsWhitespace] accepts. *)
Definition isspace (c : char) : bool :=
  ((9 <=? c) && (c <=? 13)) || ((28 <=? c) && (c <=? 32))
  || (c =? 133) || (c =? 160) || (c =? 5760)
  || ((8192 <=? c) && (c <=? 8202))
  || (c =? 8232) || (c =? 8233) || (c =? 8239) || (c =? 8287) || (c =? 12288).

Fixpoint lstrip (s : str) : str :=
  match s with
  | c :: s' => if isspace c then lstrip s' else s
  | [] => []
  end.

Definition rstrip (s : str) : str := rev (lstrip (rev s)).

(** [s.strip()] *)
Definition strip (s : str) : str := rstrip (lstrip s).

(** [s.startswith(p)] *)
Fixpoint startswith (p s : str) : bool :=
  match p, s with
  | [], _ => true
  | a :: p', b :: s' => (a =? b) && startswith p' s'
  | _ :: _, [] => false
  end.

(** [s.endswith(p)] *)
Definition endswith (p s : str) : bool := startswith (rev p) (rev s).

(** Truth value of a string: [bool(s)]. *)
Definition nonempty (s : str) : bool :=
  match s with [] => false | _ :: _ => true end.

End Py.
Import Py.

(** ** Regular expressions of the source

    [re.search], [re.split] and [re.sub] scan the subject from left to
    right; at each position the pattern is tried, and after a match the scan
    resumes behind it.  None of the patterns of this file matches the empty
    string. *)

Module Re.

(** [(.*?)\}] tried at the head of [s]: the shortest run of characters other
    than a line feed that is followed by a closing brace.  Returns the
    captured group and what follows the match. *)
Fixpoint lazy_dot_rbrace (s : str) : option (str * str) :=
  match s with
  | [] => None
  | c :: s' =>
      if c =? RBRACE then Some ([], s')
      else if c =? LF then None
      else match lazy_dot_rbrace s' with
           | Some (g, r) => Some (c :: g, r)
           | None => None
           end
  end.

(** [\{(.*?)\}] tried at the head of [s]. *)
Definition match_marker (s : str) : option (str * str) :=
  match s with
  | c :: s' => if c =? LBRACE then lazy_dot_rbrace s' else None
  | [] => None
  end.

(** [re.search(r"\{(.*?)\}", s)]: the leftmost match, as (text before the
    match, group 1, text after the match). *)
Fixpoint search_marker (s : str) : option (str * str * str) :=
  match match_marker s with
  | Some (g, r) => Some ([], g, r)
  | None =>
      match s with
      | [] => None
      | c :: s' =>
          match search_marker s' with
          | Some (pre, g, r) => Some (c :: pre, g, r)
          | None => None
          end
      end
  end.

Lemma lazy_dot_rbrace_length s g r :
  lazy_dot_rbrace s = Some (g, r) → (length r < length s)%nat.
Proof.
  revert g r. induction s as [|c s IH]; intros g r; simpl; [discriminate|].
  destruct (c =? RBRACE).
  - intros [= <- <-]. lia.
  - destruct (c =? LF); [discriminate|].
    destruct (lazy_dot_rbrace s) as [[g' r']|]; [|discriminate].
    intros [= <- <-]. specialize (IH _ _ eq_refl). lia.
Qed.

Lemma match_marker_length s g r :
  match_marker s = Some (g, r) → (length r < length s)%nat.
Proof.
  destruct s as [|c s]; simpl; [discriminate|].
  destruct (c =? LBRACE); [|discriminate].
  intros H%lazy_dot_rbrace_length. lia.
Qed.

Lemma search_marker_length s pre g r :
  search_marker s = Some (pre, g, r) → (length r < length s)%nat.
Proof.
  revert pre g r. induction s as [|c s IH]; intros pre g r.
  - simpl. discriminate.
  - cbn [search_marker].
    destruct (match_marker (c :: s)) as [[g' r']|] eqn:E.
    + intros [= <- <- <-]. by apply match_marker_length in E.
    + destruct (search_marker s) as [[[pre' g'] r']|]; [|discriminate].
      intros [= <- <- <-]. specialize (IH _ _ _ eq_refl). simpl. lia.
Qed.

(** Case analysis on a value that keeps the equation. *)
Definition inspect {A : Type} (x : A) : { y : A | x = y } := exist _ x eq_refl.

(** [re.split(r"\{(.*?)\}", s)]: the texts between the matches, with the
    captured group of each match in between. *)
Equations? split_marker (s : str) : list str by wf (length s) lt :=
  split_marker s with inspect (search_marker s) := {
    | exist _ None _ => [s]
    | exist _ (Some (pre, g, r)) E => pre :: g :: split_marker r }.
Proof. by apply search_marker_length in E. Qed.

End Re.

(** ** [parse_speechtypes_text] *)

Record segment := Segment { style : str; text : str }.

Definition Regular : str := Eval cbv in lit "Regular".

(** One iteration of the loop [for i in range(len(tokens))]; the loop state
    is [(segments, current_style)]. *)
Definition parse_step (tokens : list str)
    (st : list segment * str) (i : nat) : list segment * str :=
  let '(segments, current_style) := st in
  if (i mod 2 =? 0)%nat then
    let text := strip (nth i tokens []) in
    if nonempty text then (segments ++ [Segment current_style text], current_style)
    else (segments, current_style)
  else
    let style := strip (nth i tokens []) in
    (segments, style).

Definition parse_speechtypes_text (gen_text : str) : list segment :=
  let tokens := Re.split_marker gen_text in
  fst (fold_left (parse_step tokens) (seq 0 (length tokens)) ([], Regular)).

(** ** The application

    The Unicode tables of the [re] module, [str.lower], [int] and the
    [num2words] library are not part of the repository: they are taken as
    parameters. *)

Section App.

Set Default Proof Using "Type".

(** [\d]: a Unicode decimal digit. *)
Variable isdigit : char → bool.
(** [\w]: a Unicode word character. *)
Variable isword : char → bool.
(** The decimal value [int] gives a digit. *)
Variable digit_value : char → N.
(** [num2words(n, lang='ar')] *)
Variable num2words : N → str.
(** [str.lower] *)
Variable lower : str → str.

(** [[A-Za-z]] *)
Definition islatin (c : char) : bool :=
  ((65 <=? c) && (c <=? 90)) || ((97 <=? c) && (c <=? 122)).

(** [int(number)] for a string of digits. *)
Definition int (number : str) : N :=
  fold_left (λ acc c, 10 * acc + digit_value c) number 0.

(** [re.sub(r'([A-Za-z])(\d)', r'\1 \2', s)] *)
Fixpoint sub_letter_digit (s : str) : str :=
  match s with
  | [] => []
  | a :: s' =>
      match s' with
      | b :: r =>
          if islatin a && isdigit b then a :: SPACE :: b :: sub_letter_digit r
          else a :: sub_letter_digit s'
      | [] => [a]
      end
  end.

(** [re.sub(r'(\d)([A-Za-z])', r'\1 \2', s)] *)
Fixpoint sub_digit_letter (s : str) : str :=
  match s with
  | [] => []
  | a :: s' =>
      match s' with
      | b :: r =>
          if isdigit a && islatin b then a :: SPACE :: b :: sub_digit_letter r
          else a :: sub_digit_letter s'
      | [] => [a]
      end
  end.

Definition isword_opt (o : option char) : bool :=
  match o with Some c => isword c | None => false end.

(** [\b] between the character [before] and the character [after] (absent at
    the ends of the text). *)
Definition word_boundary (before after : option char) : bool :=
  xorb (isword_opt before) (isword_opt after).

(** [\d+\b] tried at the head of [s]; [\d+] is greedy: a longer run of
    digits is tried before a shorter one.  Returns the match and what
    follows it. *)
Fixpoint match_digits_boundary (s : str) : option (str * str) :=
  match s with
  | [] => None
  | c :: s' =>
      if isdigit c then
        match match_digits_boundary s' with
        | Some (m, r) => Some (c :: m, r)
        | None =>
            if word_boundary (Some c) (head s') then Some ([c], s') else None
        end
      else None
  end.

(** [\b\d+\b] tried at the head of [s], the character before it being
    [prev]. *)
Definition match_number (prev : option char) (s : str) : option (str * str) :=
  if word_boundary prev (head s) then match_digits_boundary s else None.

Lemma match_digits_boundary_length s m r :
  match_digits_boundary s = Some (m, r) → (length r < length s)%nat.
Proof.
  revert m r. induction s as [|c s IH]; intros m r; simpl; [discriminate|].
  destruct (isdigit c); [|discriminate].
  destruct (match_digits_boundary s) as [[m' r']|].
  - intros [= <- <-]. specialize (IH _ _ eq_refl). lia.
  - destruct (word_boundary _ _); [|discriminate]. intros [= <- <-]. lia.
Qed.

Lemma match_number_length prev s m r :
  match_number prev s = Some (m, r) → (length r < length s)%nat.
Proof.
  unfold match_number. destruct (word_boundary _ _); [|discriminate].
  apply match_digits_boundary_length.
Qed.

(** The function [replace_number] handed to [re.sub]. *)
Definition replace_number (number : str) : str := num2words (int number).

(** [re.sub(r'\b\d+\b', replace_number, s)], scanning [s] with [prev] the
    character before it. *)
Equations? sub_numbers (prev : option char) (s : str) : str
    by wf (length s) lt :=
  sub_numbers prev [] := [];
  sub_numbers prev (c :: s') with Re.inspect (match_number prev (c :: s')) := {
    | exist _ (Some (m, r)) E => replace_number m ++ sub_numbers (last m) r
    | exist _ None _ => c :: sub_numbers (Some c) s' }.
Proof. apply match_number_length in E. simpl in E. lia. Qed.

Definition convert_numbers_to_arabic_text (text : str) : str :=
  let text_separated := sub_letter_digit text in
  let text_separated := sub_digit_letter text_separated in
  let text_translated := sub_numbers None text_separated in
  text_translated.

(** ** Values, effects and the outside world

    What the handlers get from the widgets is a string, a boolean or [None].
    Calls into the libraries ([f5_tts.infer.utils_infer], [soundfile],
    [torchaudio], [tempfile], [transformers], [gradio]) are events: the
    outside world answers them and is changed by them. *)

Inductive value := VNone | VBool (b : bool) | VStr (s : str).

#[global] Instance value_eq_dec : EqDecision value.
Proof. solve_decision. Defined.

#[global] Instance value_countable : Countable value.
Proof.
  refine (inj_countable'
    (λ v, match v with
          | VNone => inl ()
          | VBool b => inr (inl b)
          | VStr s => inr (inr s)
          end)
    (λ x, match x with
          | inl () => VNone
          | inr (inl b) => VBool b
          | inr (inr s) => VStr s
          end) _).
  by intros [].
Defined.

(** Truth value of a widget value, as [if v:] takes it. *)
Definition truthy (v : value) : bool :=
  match v with
  | VNone => false
  | VBool b => b
  | VStr s => nonempty s
  end.

(** The [show_info] callbacks the source passes around. *)
Inductive show_info_fn := gr_Info | py_print.

(** Elements of the two lists of the chat: a message
    [{"role": r, "content": c}] of the conversation state and a pair
    [(user, reply)] of the chat history. *)
Inductive item :=
| Message (role content : str)
| Turn (user : str) (reply : option str).

Inductive exn := IndexError | KeyError | NameError.

(** A waveform is a one-dimensional array of samples. *)
Variable sample : Type.
Variable tensor : Type.
Variable spectrogram : Type.
Definition wave := list sample.

(** [tensor.squeeze().cpu().numpy()] *)
Variable squeeze_cpu_numpy : tensor → wave.

(** The calls into the libraries, each with the type of its answer.  The
    module constants [F5TTS_ema_model] and [vocoder], the chat model and its
    tokenizer, and [gr.Progress()] are the same in every call and are left
    out.  [tokenizer(...)] answers with its [input_ids].  An answer is always
    given: a library call that raises is outside this model. *)
Inductive extE : Type → Type :=
| PreprocessRefAudioText (ref_audio_orig ref_text : value)
    (show_info : option show_info_fn) : extE (str * str)
| InferProcess (ref_audio ref_text gen_text : str)
    (cross_fade_duration speed : Q) (show_info : show_info_fn) :
    extE (wave * Z * spectrogram)
| NamedTemporaryFile (suffix : str) : extE str
| SfWrite (name : str) (data : wave) (samplerate : Z) : extE unit
| RemoveSilenceForGeneratedWav (name : str) : extE unit
| TorchaudioLoad (name : str) : extE (tensor * Z)
| SaveSpectrogram (spec : spectrogram) (path : str) : extE unit
| GrWarning (message : string) : extE unit
| ApplyChatTemplate (messages : list item) : extE str
| Tokenizer (texts : list str) : extE (list (list Z))
| ModelGenerate (input_ids : list (list Z)) (max_new_tokens : Z)
    (temperature top_p : Q) : extE (list (list Z))
| BatchDecode (ids : list (list Z)) : extE (list str).

(** A call that was made, with the answer it got. *)
Inductive call := Called (X : Type) (e : extE X) (x : X).
Arguments Called {X} e x.

(** The outside world and how it answers. *)
Variable World : Type.
Variable answer : ∀ X, extE X → World → X * World.

Definition loc := nat.

(** The state a handler runs in: the outside world, the calls made so far,
    and the Python lists that live across calls, by reference. *)
Record state := State {
  world : World;
  log : list call;
  heap : gmap loc (list item)
}.

Inductive result (A : Type) :=
| Ok (a : A)
| Raise (e : exn).
Arguments Ok {A} a.
Arguments Raise {A} e.

Definition M (A : Type) : Type := state → result A * state.

Definition ret {A} (a : A) : M A := λ s, (Ok a, s).

Definition bind {A B} (m : M A) (k : A → M B) : M B :=
  λ s, match m s with
       | (Ok a, s') => k a s'
       | (Raise e, s') => (Raise e, s')
       end.

Definition raise {A} (e : exn) : M A := λ s, (Raise e, s).

Notation "'let*' x := m 'in' k" := (bind m (λ x, k))
  (at level 10, x pattern, m at level 100, k at level 200).

Definition ext {X} (e : extE X) : M X :=
  λ s, let '(x, w) := answer X e (world s) in
       (Ok x, State w (log s ++ [Called e x]) (heap s)).

(** [xs[i]] *)
Definition index {A} (xs : list A) (i : nat) : M A :=
  match xs !! i with
  | Some x => ret x
  | None => raise IndexError
  end.

(** [xs[a:b]] *)
Definition slice {A} (xs : list A) (a b : nat) : list A :=
  take (b - a) (drop a xs).

(** [l.append(x)] *)
Definition list_append (l : loc) (x : item) : M unit :=
  λ s, (Ok (), State (world s) (log s) (<[l := heap s !!! l ++ [x]]> (heap s))).

(** [l[-1] = x] *)
Definition list_set_last (l : loc) (x : item) : M unit :=
  λ s, match heap s !!! l with
       | [] => (Raise IndexError, s)
       | xs =>
           (Ok (),
            State (world s) (log s) (<[l := removelast xs ++ [x]]> (heap s)))
       end.

(** The elements of the list at [l]. *)
Definition list_read (l : loc) : M (list item) :=
  λ s, (Ok (heap s !!! l), s).

(** [for x in xs: a = f(a, x)] *)
Fixpoint foldM {A B} (f : A → B → M A) (xs : list B) (a : A) : M A :=
  match xs with
  | [] => ret a
  | x :: xs' => let* a' := f a x in foldM f xs' a'
  end.

(** ** [generate_response] *)

Definition generate_response (messages : loc) : M str :=
  let* msgs := list_read messages in
  let* text := ext (ApplyChatTemplate msgs) in
  let* model_inputs := ext (Tokenizer [text]) in
  let* generated_ids := ext (ModelGenerate model_inputs 512 (7 # 10) (95 # 100)) in
  let generated_ids :=
    zip_with (λ input_ids output_ids, drop (length input_ids) output_ids)
      model_inputs generated_ids in
  let* decoded := ext (BatchDecode generated_ids) in
  index decoded 0.

(** ** [infer] *)

Definition str_space : str := Eval cbv in lit " ".
Definition str_dot_space : str := Eval cbv in lit ". ".
Definition str_wav : str := Eval cbv in lit ".wav".
Definition str_png : str := Eval cbv in lit ".png".

Definition infer (ref_audio_orig ref_text : value) (gen_text : str)
    (model remove_silence : value) (cross_fade_duration speed : Q)
    (show_info : show_info_fn) : M ((Z * wave) * str) :=
  let* (ref_audio, ref_text) :=
    ext (PreprocessRefAudioText ref_audio_orig ref_text (Some show_info)) in
  let gen_text :=
    if negb (startswith str_space gen_text) then str_space ++ gen_text
    else gen_text in
  let gen_text :=
    if negb (endswith str_dot_space gen_text) then gen_text ++ str_dot_space
    else gen_text in
  let gen_text := lower gen_text in
  let gen_text := convert_numbers_to_arabic_text gen_text in
  let* (final_wave, final_sample_rate, combined_spectrogram) :=
    ext (InferProcess ref_audio ref_text gen_text cross_fade_duration speed
           show_info) in
  let* final_wave :=
    if truthy remove_silence then
      let* f := ext (NamedTemporaryFile str_wav) in
      let* _ := ext (SfWrite f final_wave final_sample_rate) in
      let* _ := ext (RemoveSilenceForGeneratedWav f) in
      let* (final_wave, _) := ext (TorchaudioLoad f) in
      ret (squeeze_cpu_numpy final_wave)
    else ret final_wave in
  let* spectrogram_path := ext (NamedTemporaryFile str_png) in
  let* _ := ext (SaveSpectrogram combined_spectrogram spectrogram_path) in
  ret ((final_sample_rate, final_wave), spectrogram_path).

(** ** The multi-style tab *)

Definition max_speech_types : nat := 100.

(** A speech type [{"audio": a, "ref_text": t}]. *)
Record speech_type := SpeechType { audio : value; ref_text : value }.

(** The dictionary [speech_types] that [generate_multistyle_speech]
    collects. *)
Definition collect_speech_types (regular_audio regular_ref_text : value)
    (speech_type_names_list speech_type_audios_list
       speech_type_ref_texts_list : list value) : gmap value speech_type :=
  fold_left
    (λ speech_types '(name_input, (audio_input, ref_text_input)),
       if truthy name_input && truthy audio_input
       then <[name_input := SpeechType audio_input ref_text_input]> speech_types
       else speech_types)
    (zip speech_type_names_list
       (zip speech_type_audios_list speech_type_ref_texts_list))
    {[ VStr Regular := SpeechType regular_audio regular_ref_text ]}.

(** The body of [for segment in segments]; the loop state is
    [(generated_audio_segments, current_style, sr)], [sr] being unbound
    before the first iteration. *)
Definition multistyle_step (speech_types : gmap value speech_type)
    (model_choice remove_silence : value)
    (st : list wave * str * option Z) (segment : segment) :
    M (list wave * str * option Z) :=
  let '(generated_audio_segments, current_style, sr) := st in
  let style := style segment in
  let text := text segment in
  let current_style :=
    if bool_decide (is_Some (speech_types !! VStr style)) then style
    else Regular in
  let* entry :=
    match speech_types !! VStr current_style with
    | Some entry => ret entry
    | None => raise KeyError
    end in
  let ref_audio := audio entry in
  let ref_text := ref_text entry in
  let* (audio, _) :=
    infer ref_audio ref_text text model_choice remove_silence 0 1 py_print in
  let '(sr, audio_data) := audio in
  ret (generated_audio_segments ++ [audio_data], current_style, Some sr).

Definition no_audio_warning : string := "لم يتم إنشاء أي صوت.".

Definition generate_multistyle_speech (regular_audio regular_ref_text : value)
    (gen_text : str) (args : list value) : M (option (Z * wave)) :=
  let num_additional_speech_types := (max_speech_types - 1)%nat in
  let speech_type_names_list := slice args 0 num_additional_speech_types in
  let speech_type_audios_list :=
    slice args num_additional_speech_types (2 * num_additional_speech_types) in
  let speech_type_ref_texts_list :=
    slice args (2 * num_additional_speech_types)
      (3 * num_additional_speech_types) in
  let* model_choice := index args (3 * num_additional_speech_types) in
  let* remove_silence := index args (3 * num_additional_speech_types + 1) in
  let speech_types :=
    collect_speech_types regular_audio regular_ref_text
      speech_type_names_list speech_type_audios_list
      speech_type_ref_texts_list in
  let segments := parse_speechtypes_text gen_text in
  let* (generated_audio_segments, _, sr) :=
    foldM (multistyle_step speech_types model_choice remove_silence)
      segments ([], Regular, None) in
  if bool_decide (generated_audio_segments ≠ []) then
    let final_audio_data := concat generated_audio_segments in
    match sr with
    | Some sr => ret (Some (sr, final_audio_data))
    | None => raise NameError
    end
  else
    let* _ := ext (GrWarning no_audio_warning) in
    ret None.

(** [gr.update(...)]: the properties of a component that are set. *)
Record update := Update {
  upd_visible : option bool;
  upd_interactive : option bool
}.

Definition gr_update : update := Update None None.
Definition gr_update_visible (b : bool) : update := Update (Some b) None.
Definition gr_update_interactive (b : bool) : update := Update None (Some b).

Definition validate_speech_types (gen_text : str) (regular_name : value)
    (args : list value) : update :=
  let num_additional_speech_types := (max_speech_types - 1)%nat in
  let speech_type_names_list := slice args 0 num_additional_speech_types in
  let speech_types_available : gset value :=
    if truthy regular_name then {[ regular_name ]} else ∅ in
  let speech_types_available :=
    fold_left
      (λ available name_input,
         if truthy name_input then available ∪ {[ name_input ]} else available)
      speech_type_names_list speech_types_available in
  let segments := parse_speechtypes_text gen_text in
  let speech_types_in_text : gset value :=
    list_to_set (map (λ segment, VStr (style segment)) segments) in
  let missing_speech_types := speech_types_in_text ∖ speech_types_available in
  if bool_decide (missing_speech_types ≠ ∅) then gr_update_interactive false
  else gr_update_interactive true.

(** [add_speech_type_fn]: the new counter and one update per row. *)
Definition add_speech_type_fn (speech_type_count : Z) : Z * list update :=
  if (speech_type_count <? Z.of_nat max_speech_types - 1)%Z then
    let speech_type_count := (speech_type_count + 1)%Z in
    (speech_type_count,
     map (λ i, if (Z.of_nat i <? speech_type_count)%Z
               then gr_update_visible true else gr_update)
       (seq 0 (max_speech_types - 1)))
  else
    (speech_type_count, map (λ _, gr_update) (seq 0 (max_speech_types - 1))).

(** [make_delete_speech_type_fn(index)] *)
Definition make_delete_speech_type_fn (index : nat) (speech_type_count : Z) :
    Z * list update :=
  let row_updates :=
    map (λ i, if (i =? index)%nat then gr_update_visible false else gr_update)
      (seq 0 (max_speech_types - 1)) in
  let speech_type_count := Z.max 0 (speech_type_count - 1) in
  (speech_type_count, row_updates).

(** The components [speech_type_names]: the list starts with the box
    [regular_name], and the name box of every additional row is appended. *)
Definition speech_type_names (regular_name : value) (name_inputs : list value) :
    list value :=
  regular_name :: name_inputs.

(** [gen_text_input_multistyle.change(validate_speech_types,
      inputs=[gen_text_input_multistyle, regular_name] + speech_type_names)] *)
Definition on_gen_text_change (gen_text : str) (regular_name : value)
    (name_inputs : list value) : update :=
  validate_speech_types gen_text regular_name
    (speech_type_names regular_name name_inputs).

(** [generate_multistyle_btn.click(generate_multistyle_speech,
      inputs=[regular_audio, regular_ref_text, gen_text_input_multistyle]
             + speech_type_names + speech_type_audios
             + speech_type_ref_texts
             + [model_choice_multistyle, remove_silence_multistyle])] *)
Definition on_generate_click (regular_audio regular_ref_text : value)
    (gen_text : str) (regular_name : value)
    (name_inputs audio_inputs ref_text_inputs : list value)
    (model_choice remove_silence : value) : M (option (Z * wave)) :=
  generate_multistyle_speech regular_audio regular_ref_text gen_text
    (speech_type_names regular_name name_inputs ++ audio_inputs
       ++ ref_text_inputs ++ [model_choice; remove_silence]).

(** The counter [speech_type_count] and the visibility of the rows
    [speech_type_rows]. *)
Record rows_state := RowsState {
  speech_type_count : Z;
  speech_type_rows : list bool
}.

(** A component takes the properties an update sets and keeps the others. *)
Definition apply_visible (u : update) (visible : bool) : bool :=
  default visible (upd_visible u).

(** [outputs=[speech_type_count] + speech_type_rows] *)
Definition set_outputs (out : Z * list update) (ui : rows_state) : rows_state :=
  RowsState out.1 (zip_with apply_visible out.2 (speech_type_rows ui)).

Inductive click := Add | Delete (index : nat).

Definition on_click (ui : rows_state) (c : click) : rows_state :=
  match c with
  | Add => set_outputs (add_speech_type_fn (speech_type_count ui)) ui
  | Delete index =>
      set_outputs (make_delete_speech_type_fn index (speech_type_count ui)) ui
  end.

(** [gr.State(value=0)] and the rows created with [gr.Row(visible=False)]. *)
Definition initial_rows : rows_state :=
  RowsState 0 (replicate (max_speech_types - 1) false).

(** ** The chat tab *)

Definition role_user : str := Eval cbv in lit "user".
Definition role_assistant : str := Eval cbv in lit "assistant".

Definition process_audio_input (audio_path : value) (text : str)
    (history conv_state : loc) : M (loc * loc * str) :=
  if negb (truthy audio_path) && negb (nonempty (strip text)) then
    ret (history, conv_state, [])
  else
    let* text :=
      if truthy audio_path then
        let* r := ext (PreprocessRefAudioText audio_path (VStr text) None) in
        ret r.2
      else ret text in
    if negb (nonempty (strip text)) then ret (history, conv_state, [])
    else
      let* _ := list_append conv_state (Message role_user text) in
      let* _ := list_append history (Turn text None) in
      let* response := generate_response conv_state in
      let* _ := list_append conv_state (Message role_assistant response) in
      let* _ := list_set_last history (Turn text (Some response)) in
      ret (history, conv_state, []).

(** ** The application *)

Inductive blocks := app_credits | app_tts | app_multistyle | app_chat.

(** [gr.TabbedInterface(interface_list, tab_names)]: one tab per interface,
    in the order of the list, under the name at the same position. *)
Definition TabbedInterface (interface_list : list blocks)
    (tab_names : list string) : list (string * blocks) :=
  zip tab_names interface_list.

Definition app : list (string * blocks) :=
  TabbedInterface
    [app_tts; app_multistyle; app_chat; app_credits]
    ["🗣️ تحويل النص إلى كلام"; "🎭 أنماط صوتية متعددة"; "💬 دردشة صوتية";
     "📜 الاعتمادات"]%string.

(** ** The insert buttons *)

Definition str_Ninguno : str := Eval cbv in lit "Ninguno".

(** [x or d] for the value of a text box, a string or [None]. *)
Definition or_else (x : option str) (d : str) : str :=
  match x with
  | Some s => if nonempty s then s else d
  | None => d
  end.

(** [gr.update(value=v)] for a text box. *)
Record value_update := UpdateValue { upd_value : str }.

(** [make_insert_speech_type_fn(index)] *)
Definition make_insert_speech_type_fn (index : nat)
    (current_text speech_type_name : option str) : value_update :=
  let current_text := or_else current_text [] in
  let speech_type_name := or_else speech_type_name str_Ninguno in
  let updated_text :=
    current_text ++ [LBRACE] ++ speech_type_name ++ [RBRACE] ++ [SPACE] in
  UpdateValue updated_text.

(** ** [generate_audio_response] *)

Definition str_role : str := Eval cbv in lit "role".
Definition str_content : str := Eval cbv in lit "content".

(** [a, b = x] for an element of the history: a pair gives its two
    components, a dictionary its two keys. *)
Definition unpack_pair (x : item) : str * option str :=
  match x with
  | Turn user reply => (user, reply)
  | Message _ _ => (str_role, Some str_content)
  end.

Definition generate_audio_response (history : loc)
    (ref_audio ref_text model remove_silence : value) :
    M (option (Z * wave)) :=
  let* h := list_read history in
  if negb (bool_decide (h ≠ [])) || negb (truthy ref_audio) then ret None
  else
    let* last_turn := index h (length h - 1) in
    let '(last_user_message, last_ai_response) := unpack_pair last_turn in
    match last_ai_response with
    | None => ret None
    | Some last_ai_response =>
        if negb (nonempty last_ai_response) then ret None
        else
          let* (audio_result, _) :=
            infer ref_audio ref_text last_ai_response model remove_silence
              (15 # 100) 1 py_print in
          ret (Some audio_result)
    end.

(** * Specifications

    The second half states what the specification says of the functions
    above and proves it. *)

(** *** What the specification says about the parser

    A marker is an opening brace, characters other than a line feed, and the
    first closing brace after them.  The text is cut at its markers from
    left to right; what lies between two markers is a chunk. *)

(** A marker starts at the head of [s]. *)
Definition marker_at (s : str) : Prop :=
  ∃ m rest, s = LBRACE :: m ++ (RBRACE :: rest) ∧ (LF ∉ m).

(** No marker starts inside the chunk [c] when [rest] follows it. *)
Definition no_marker_inside (c rest : str) : Prop :=
  ∀ a b, c = a ++ b → b ≠ [] → ¬ marker_at (b ++ rest).

(** [Chunks s c0 l]: [s] is the chunk [c0] followed by the markers of [l],
    each with the chunk behind it; chunks are maximal. *)
Inductive Chunks : str → str → list (str * str) → Prop :=
| Chunks_last c :
    no_marker_inside c [] →
    Chunks c c []
| Chunks_marker c m s c' l :
    no_marker_inside c (LBRACE :: m ++ RBRACE :: s) →
    RBRACE ∉ m → LF ∉ m →
    Chunks s c' l →
    Chunks (c ++ LBRACE :: m ++ RBRACE :: s) c ((m, c') :: l).

(** The segment a chunk gives under the style [st]: none when the chunk is
    blank. *)
Definition labelled (st c : str) : list segment :=
  if nonempty (strip c) then [Segment st (strip c)] else [].

(** *** What the specification says about the normalizer *)

Definition isdigit_opt (o : option char) : bool :=
  match o with Some c => isdigit c | None => false end.

(** A Latin letter next to a digit, in either order. *)
Definition letter_digit_pair (a b : char) : bool :=
  (islatin a && isdigit b) || (isdigit a && islatin b).

(** The text with a space put between the two characters of every such
    pair. *)
Fixpoint separate (s : str) : str :=
  match s with
  | [] => []
  | a :: s' =>
      a :: match s' with
           | b :: _ => if letter_digit_pair a b then [SPACE] else []
           | [] => []
           end ++ separate s'
  end.

(** A run of digits between [prev] and [rest] is delimited by word
    boundaries: no word character touches it on either side. *)
Definition delimited (prev : option char) (rest : str) : bool :=
  negb (isword_opt prev) && negb (isword_opt (head rest)).

(** [Replaced prev s out]: [out] is [s] (which follows the character [prev])
    with every maximal run of digits that is delimited by word boundaries
    replaced by its words, and every other character kept. *)
Inductive Replaced : option char → str → str → Prop :=
| Replaced_nil prev :
    Replaced prev [] []
| Replaced_other prev c s out :
    isdigit c = false →
    Replaced (Some c) s out →
    Replaced prev (c :: s) (c :: out)
| Replaced_run prev run rest out :
    run ≠ [] → Forall (λ c, isdigit c = true) run →
    isdigit_opt prev = false → isdigit_opt (head rest) = false →
    Replaced (last run) rest out →
    Replaced prev (run ++ rest)
      ((if delimited prev rest then num2words (int run) else run) ++ out).

(** *** What the specification says about [infer] *)

(** The text with a single space put in front unless it starts with one. *)
Definition with_leading_space (t : str) : str :=
  if decide (head t = Some SPACE) then t else SPACE :: t.

(** The text with ". " put behind unless it ends with it. *)
Definition with_final_stop (t : str) : str :=
  if decide (str_dot_space `suffix_of` t) then t else t ++ str_dot_space.

(** The normalized generation text. *)
Definition normalized (gen_text : str) : str :=
  convert_numbers_to_arabic_text
    (lower (with_final_stop (with_leading_space gen_text))).

(** The calls made between two states. *)
Definition calls_since (s s' : state) : list call :=
  drop (length (log s)) (log s').

(** The generation texts handed to [infer_process]. *)
Definition infer_process_texts (calls : list call) : list str :=
  omap (λ c, match c with
             | Called (InferProcess _ _ gen_text _ _ _) _ => Some gen_text
             | _ => None
             end) calls.

(** What the calls of [infer_process] returned. *)
Definition infer_process_results (calls : list call) :
    list (wave * Z * spectrogram) :=
  omap (λ c, match c with
             | Called e x =>
                 match e in extE T return T → option (wave * Z * spectrogram) with
                 | InferProcess _ _ _ _ _ _ => λ r, Some r
                 | _ => λ _, None
                 end x
             end) calls.

(** The reference audio and text handed to [infer]'s preprocessing. *)
Definition references_used (calls : list call) : list (value * value) :=
  omap (λ c, match c with
             | Called (PreprocessRefAudioText a t (Some _)) _ => Some (a, t)
             | _ => None
             end) calls.

(** The files written with [sf.write]. *)
Definition soundfile_writes (calls : list call) : list (str * wave * Z) :=
  omap (λ c, match c with
             | Called (SfWrite name data sr) _ => Some (name, data, sr)
             | _ => None
             end) calls.

(** The files handed to [remove_silence_for_generated_wav]. *)
Definition silence_removals (calls : list call) : list str :=
  omap (λ c, match c with
             | Called (RemoveSilenceForGeneratedWav name) _ => Some name
             | _ => None
             end) calls.

(** The files read with [torchaudio.load], and the tensors read. *)
Definition torchaudio_loads (calls : list call) : list (str * tensor) :=
  omap (λ c, match c with
             | Called e x =>
                 match e in extE T return T → option (str * tensor) with
                 | TorchaudioLoad name => λ r, Some (name, r.1)
                 | _ => λ _, None
                 end x
             end) calls.

(** The spectrograms saved, and where. *)
Definition spectrograms_saved (calls : list call) : list (spectrogram * str) :=
  omap (λ c, match c with
             | Called (SaveSpectrogram spec path) _ => Some (spec, path)
             | _ => None
             end) calls.

(** The warnings shown. *)
Definition warnings (calls : list call) : list string :=
  omap (λ c, match c with
             | Called (GrWarning message) _ => Some message
             | _ => None
             end) calls.

(** The calls [infer] makes when silence removal is off, and the answers. *)
Definition infer_calls_plain (ref_audio_orig ref_text : value) (gen_text : str)
    (cross_fade_duration speed : Q) (show_info : show_info_fn) (w : World) :
    list call * World * ((Z * wave) * str) :=
  let pre := PreprocessRefAudioText ref_audio_orig ref_text (Some show_info) in
  let a1 := answer _ pre w in
  let ip := InferProcess a1.1.1 a1.1.2 (normalized gen_text)
              cross_fade_duration speed show_info in
  let a2 := answer _ ip a1.2 in
  let tmp := NamedTemporaryFile str_png in
  let a3 := answer _ tmp a2.2 in
  let save := SaveSpectrogram a2.1.2 a3.1 in
  let a4 := answer _ save a3.2 in
  ([Called pre a1.1; Called ip a2.1; Called tmp a3.1; Called save a4.1],
   a4.2, ((a2.1.1.2, a2.1.1.1), a3.1)).

(** The calls [infer] makes when silence removal is on, and the answers. *)
Definition infer_calls_trimmed (ref_audio_orig ref_text : value) (gen_text : str)
    (cross_fade_duration speed : Q) (show_info : show_info_fn) (w : World) :
    list call * World * ((Z * wave) * str) :=
  let pre := PreprocessRefAudioText ref_audio_orig ref_text (Some show_info) in
  let a1 := answer _ pre w in
  let ip := InferProcess a1.1.1 a1.1.2 (normalized gen_text)
              cross_fade_duration speed show_info in
  let a2 := answer _ ip a1.2 in
  let tmpw := NamedTemporaryFile str_wav in
  let b1 := answer _ tmpw a2.2 in
  let wr := SfWrite b1.1 a2.1.1.1 a2.1.1.2 in
  let b2 := answer _ wr b1.2 in
  let rm := RemoveSilenceForGeneratedWav b1.1 in
  let b3 := answer _ rm b2.2 in
  let ld := TorchaudioLoad b1.1 in
  let b4 := answer _ ld b3.2 in
  let tmp := NamedTemporaryFile str_png in
  let a3 := answer _ tmp b4.2 in
  let save := SaveSpectrogram a2.1.2 a3.1 in
  let a4 := answer _ save a3.2 in
  ([Called pre a1.1; Called ip a2.1; Called tmpw b1.1; Called wr b2.1;
    Called rm b3.1; Called ld b4.1; Called tmp a3.1; Called save a4.1],
   a4.2, ((a2.1.1.2, squeeze_cpu_numpy b4.1.1), a3.1)).

Definition infer_calls (ref_audio_orig ref_text : value) (gen_text : str)
    (remove_silence : value) (cross_fade_duration speed : Q)
    (show_info : show_info_fn) (w : World) :
    list call * World * ((Z * wave) * str) :=
  if truthy remove_silence
  then infer_calls_trimmed ref_audio_orig ref_text gen_text
         cross_fade_duration speed show_info w
  else infer_calls_plain ref_audio_orig ref_text gen_text
         cross_fade_duration speed show_info w.

(** *** What the specification says about [generate_multistyle_speech] *)

(** [f] on every element in order, collecting the results. *)
Fixpoint for_each {A B} (f : A → M B) (xs : list A) : M (list B) :=
  match xs with
  | [] => ret []
  | x :: xs' =>
      let* y := f x in
      let* ys := for_each f xs' in
      ret (y :: ys)
  end.

(** The speech type of a segment: the one its style names when that one is
    configured, the "Regular" one otherwise. *)
Definition chosen_speech_type (speech_types : gmap value speech_type)
    (regular : speech_type) (style : str) : speech_type :=
  default regular (speech_types !! VStr style).

(** One segment synthesized with the reference of its speech type: the
    sample rate and the waveform. *)
Definition synthesize_segment (speech_types : gmap value speech_type)
    (regular : speech_type) (model_choice remove_silence : value)
    (seg : segment) : M (Z * wave) :=
  let ty := chosen_speech_type speech_types regular (style seg) in
  let* r := infer (audio ty) (ref_text ty) (text seg) model_choice
              remove_silence 0 1 py_print in
  ret r.1.

(** Every segment synthesized in order, and the waveforms concatenated; a
    warning and [None] when there is no segment. *)
Definition synthesize_segments (speech_types : gmap value speech_type)
    (regular : speech_type) (model_choice remove_silence : value)
    (segments : list segment) : M (option (Z * wave)) :=
  let* outs :=
    for_each
      (synthesize_segment speech_types regular model_choice remove_silence)
      segments in
  match last outs with
  | None => let* _ := ext (GrWarning no_audio_warning) in ret None
  | Some (sr, _) => ret (Some (sr, concat (map snd outs)))
  end.

(** The dictionary [generate_multistyle_speech] collects from its
    arguments. *)
Definition speech_types_of (regular_audio regular_ref_text : value)
    (args : list value) : gmap value speech_type :=
  collect_speech_types regular_audio regular_ref_text
    (slice args 0 99) (slice args 99 198) (slice args 198 297).


(** *** What the specification says about [process_audio_input] *)

(** The user message: the text of the box, or what the recorded audio is
    transcribed to when there is an audio path. *)
Definition user_message (audio_path : value) (text : str) : M str :=
  if truthy audio_path then
    let* r := ext (PreprocessRefAudioText audio_path (VStr text) None) in
    ret r.2
  else ret text.

(** The state in which the reply is generated: the user message is already
    in the conversation. *)
Definition with_user_message (history conv_state : loc) (message : str)
    (s : state) : state :=
  State (world s) (log s)
    (<[history := heap s !!! history ++ [Turn message None]]>
       (<[conv_state := heap s !!! conv_state ++ [Message role_user message]]>
          (heap s))).


(** *** What the specification says about [validate_speech_types] *)

(** The configured names: the regular name and the names of the additional
    rows, those that are not empty. *)
Definition configured_names (regular_name : value) (name_inputs : list value) :
    gset value :=
  list_to_set (List.filter truthy (regular_name :: name_inputs)).

(** The set the specification describes: the regular name, and the names of
    the additional rows that are not empty. *)
Definition names_as_specified (regular_name : value) (name_inputs : list value) :
    gset value :=
  {[ regular_name ]} ∪ list_to_set (List.filter truthy name_inputs).


(** *** What the specification says about the speech-type rows *)

(** The rows after a sequence of clicks, from the page as it is loaded. *)
Definition run_clicks (clicks : list click) : rows_state :=
  fold_left on_click clicks initial_rows.

(** The number of rows that are visible. *)
Definition visible_count (ui : rows_state) : nat :=
  length (List.filter id (speech_type_rows ui)).

(** The rows shown are exactly the first [n]. *)
Definition first_rows_visible (n : nat) (ui : rows_state) : Prop :=
  speech_type_rows ui =
  replicate n true ++ replicate (max_speech_types - 1 - n) false.


(** The state kept by the clicks: the counter is in range and no row is
    gained or lost. *)
Definition rows_ok (ui : rows_state) : Prop :=
  (0 ≤ speech_type_count ui ≤ 99)%Z ∧ length (speech_type_rows ui) = 99%nat.

(** *** Further notions for [generate_multistyle_speech] *)

(** The rows that count as configured speech types: those with a name and
    an audio. *)
Definition configured_rows (names audios texts : list value) :
    list (value * (value * value)) :=
  List.filter (λ row, truthy row.1 && truthy row.2.1)
    (zip names (zip audios texts)).

(** The last configured row with the name [k]. *)
Definition last_row_named (k : value) (rows : list (value * (value * value))) :
    option (value * (value * value)) :=
  last (List.filter (λ row, bool_decide (row.1 = k)) rows).

(** What a name stands for, read off the rows: the audio and reference text
    of the last configured row with this name; for "Regular", when no row
    is named so, the regular audio and reference text; nothing for any
    other name. *)
Definition speech_type_named (regular_audio regular_ref_text : value)
    (names audios texts : list value) (k : value) : option speech_type :=
  match last_row_named k (configured_rows names audios texts) with
  | Some row => Some (SpeechType row.2.1 row.2.2)
  | None =>
      if decide (k = VStr Regular)
      then Some (SpeechType regular_audio regular_ref_text)
      else None
  end.

(** * Proofs *)

(** ** The parser *)

Example parse_ex1 :
  parse_speechtypes_text (lit "hi {Sad}  bye {x}{ Mad } go") =
  [Segment Regular (lit "hi"); Segment (lit "Sad") (lit "bye");
   Segment (lit "Mad") (lit "go")].
Proof. vm_compute. reflexivity. Qed.


Lemma lazy_dot_rbrace_Some s g r :
  Re.lazy_dot_rbrace s = Some (g, r) →
  s = g ++ (RBRACE :: r) ∧ (RBRACE ∉ g) ∧ (LF ∉ g).
Proof.
  revert g r. induction s as [|c s IH]; intros g r; simpl; [discriminate|].
  destruct (N.eqb_spec c RBRACE) as [->|Hc].
  - intros [= <- <-]. split; [done|]. split; apply not_elem_of_nil.
  - destruct (N.eqb_spec c LF) as [->|Hl]; [discriminate|].
    destruct (Re.lazy_dot_rbrace s) as [[g' r']|]; [|discriminate].
    intros [= <- <-]. destruct (IH _ _ eq_refl) as (-> & Hb & Hn).
    split; [done|]. split; rewrite not_elem_of_cons; done.
Qed.

Lemma lazy_dot_rbrace_None s m rest :
  Re.lazy_dot_rbrace s = None → s = m ++ RBRACE :: rest → LF ∈ m.
Proof.
  revert m. induction s as [|c s IH]; intros m; simpl.
  - intros _ H. by destruct m.
  - destruct (N.eqb_spec c RBRACE) as [->|Hc]; [discriminate|].
    destruct (N.eqb_spec c LF) as [->|Hl].
    + intros _ H. destruct m as [|x m]; simplify_eq/=. apply list_elem_of_here.
    + destruct (Re.lazy_dot_rbrace s) as [[g' r']|] eqn:E; [discriminate|].
      intros _ H. destruct m as [|x m]; simplify_eq/=.
      apply list_elem_of_further. by apply IH.
Qed.

Lemma match_marker_Some s g r :
  Re.match_marker s = Some (g, r) →
  s = LBRACE :: g ++ (RBRACE :: r) ∧ (RBRACE ∉ g) ∧ (LF ∉ g).
Proof.
  destruct s as [|c s]; simpl; [discriminate|].
  destruct (N.eqb_spec c LBRACE) as [->|Hc]; [|discriminate].
  intros (-> & ? & ?)%lazy_dot_rbrace_Some. done.
Qed.

Lemma match_marker_None s : Re.match_marker s = None → ¬ marker_at s.
Proof.
  intros H (m & rest & -> & Hm). simpl in H.
  apply Hm. eapply lazy_dot_rbrace_None; done.
Qed.

Lemma no_marker_inside_nil rest : no_marker_inside [] rest.
Proof. intros a b H Hb. symmetry in H. apply app_eq_nil in H as [_ ?]. done. Qed.

Lemma no_marker_inside_cons c s rest :
  ¬ marker_at (c :: s ++ rest) →
  no_marker_inside s rest →
  no_marker_inside (c :: s) rest.
Proof.
  intros Hc Hs a b Hab Hb.
  destruct a as [|x a]; simpl in Hab.
  - subst b. done.
  - injection Hab as -> ->. by apply (Hs a b).
Qed.

Lemma search_marker_Some s pre g r :
  Re.search_marker s = Some (pre, g, r) →
  s = pre ++ (LBRACE :: g ++ (RBRACE :: r)) ∧ (RBRACE ∉ g) ∧ (LF ∉ g) ∧
  no_marker_inside pre (LBRACE :: g ++ RBRACE :: r).
Proof.
  revert pre g r. induction s as [|c s IH]; intros pre g r.
  - simpl. discriminate.
  - cbn [Re.search_marker].
    destruct (Re.match_marker (c :: s)) as [[g' r']|] eqn:E.
    + intros [= <- <- <-]. apply match_marker_Some in E as (-> & ? & ?).
      repeat split; try done. apply no_marker_inside_nil.
    + destruct (Re.search_marker s) as [[[pre' g'] r']|]; [|discriminate].
      intros [= <- <- <-]. destruct (IH _ _ _ eq_refl) as (-> & ? & ? & Hin).
      repeat split; try done.
      apply no_marker_inside_cons; [|done]. by apply match_marker_None.
Qed.

Lemma search_marker_None s :
  Re.search_marker s = None → no_marker_inside s [].
Proof.
  induction s as [|c s IH].
  - intros _. apply no_marker_inside_nil.
  - cbn [Re.search_marker].
    destruct (Re.match_marker (c :: s)) as [[g' r']|] eqn:E; [discriminate|].
    destruct (Re.search_marker s) as [[[pre' g'] r']|]; [discriminate|].
    intros _. apply no_marker_inside_cons; [|by apply IH].
    rewrite app_nil_r. by apply match_marker_None.
Qed.

(** The tokens of [re.split], written from a decomposition into chunks. *)
Definition tokens_of (c0 : str) (l : list (str * str)) : list str :=
  c0 :: flat_map (λ mc, [mc.1; mc.2]) l.

Lemma split_marker_chunks s :
  ∃ c0 l, Chunks s c0 l ∧ Re.split_marker s = tokens_of c0 l.
Proof.
  funelim (Re.split_marker s).
  - match goal with IH : ∃ _ _, _ |- _ => destruct IH as (c' & l & HC & Htok) end.
    destruct (search_marker_Some _ _ _ _ E) as (-> & ? & ? & ?).
    exists pre, ((g, c') :: l). split; [by constructor|].
    rewrite Htok. done.
  - exists s, []. split; [|done]. constructor. by apply search_marker_None.
Qed.

Lemma mod2_succ_even n : (n mod 2 = 0 → S n mod 2 = 1)%nat.
Proof.
  intros H. rewrite (Nat.div_mod_eq n 2), H, Nat.add_0_r.
  replace (S (2 * (n / 2)))%nat with (1 + (n / 2) * 2)%nat by lia.
  by rewrite Nat.Div0.mod_add.
Qed.

Lemma mod2_succ_succ n : (S (S n) mod 2 = n mod 2)%nat.
Proof.
  replace (S (S n)) with (n + 1 * 2)%nat by lia. by rewrite Nat.Div0.mod_add.
Qed.

Lemma parse_step_even tokens acc cur i :
  (i mod 2 = 0)%nat →
  parse_step tokens (acc, cur) i = (acc ++ labelled cur (nth i tokens []), cur).
Proof.
  intros Hi. unfold parse_step, labelled. rewrite Hi. cbn [Nat.eqb].
  destruct (nonempty _); by rewrite ?app_nil_r.
Qed.

Lemma parse_step_odd tokens acc cur i :
  (i mod 2 = 1)%nat →
  parse_step tokens (acc, cur) i = (acc, strip (nth i tokens [])).
Proof. intros Hi. unfold parse_step. by rewrite Hi. Qed.

(** The loop over the token indices, run from an even index [length pre]. *)
Lemma parse_loop pre c0 l acc cur :
  (length pre mod 2 = 0)%nat →
  fst (fold_left (parse_step (pre ++ tokens_of c0 l))
         (seq (length pre) (length (tokens_of c0 l))) (acc, cur)) =
  acc ++ labelled cur c0 ++ flat_map (λ mc, labelled (strip mc.1) mc.2) l.
Proof.
  unfold tokens_of.
  revert pre c0 acc cur. induction l as [|[m c] l IH]; intros pre c0 acc cur Hev.
  - cbn [flat_map length seq fold_left].
    rewrite parse_step_even by done.
    rewrite app_nth2 by lia. rewrite Nat.sub_diag. cbn [nth fst].
    by rewrite app_nil_r.
  - cbn [flat_map length seq fold_left List.app fst snd].
    rewrite parse_step_even by done.
    rewrite parse_step_odd by by apply mod2_succ_even.
    rewrite !app_nth2 by lia. rewrite Nat.sub_diag.
    replace (S (length pre) - length pre)%nat with 1%nat by lia. cbn [nth].
    specialize (IH (pre ++ [c0; m]) c).
    rewrite length_app in IH. cbn [length] in IH.
    replace (length pre + 2)%nat with (S (S (length pre))) in IH by lia.
    rewrite <- app_assoc in IH. cbn [List.app seq fold_left] in IH.
    rewrite IH by by rewrite mod2_succ_succ. by rewrite <- app_assoc.
Qed.

Lemma marker_at_intro m rest : LF ∉ m → marker_at (LBRACE :: m ++ RBRACE :: rest).
Proof. intros H. by exists m, rest. Qed.

Lemma chunk_before_marker_unique c c' x x' :
  marker_at x → marker_at x' →
  no_marker_inside c x → no_marker_inside c' x' →
  c ++ x = c' ++ x' → c = c' ∧ x = x'.
Proof.
  intros Hx Hx' Hc Hc' Heq.
  apply app_eq_inv in Heq as [(k & -> & ->)|(k & -> & ->)].
  - destruct k as [|a k]; [by rewrite app_nil_r|].
    destruct (Hc c' (a :: k)); done.
  - destruct k as [|a k]; [by rewrite app_nil_r|].
    destruct (Hc' c (a :: k)); done.
Qed.

(** The decomposition into chunks and markers is unique. *)
Lemma Chunks_unique s c0 l c0' l' :
  Chunks s c0 l → Chunks s c0' l' → c0 = c0' ∧ l = l'.
Proof.
  intros H. revert c0' l'.
  induction H as [c Hc|c m s c' l Hc Hb Hn HC IH]; intros c0' l' H'.
  - inversion H' as [c1 Hc1|c1 m1 s1 c1' l1 Hc1 Hb1 Hn1 HC1]; subst; [done|].
    destruct (Hc c0' (LBRACE :: m1 ++ RBRACE :: s1)); [done..|].
    rewrite app_nil_r. by apply marker_at_intro.
  - inversion H' as [c1 Hc1|c1 m1 s1 c1' l1 Hc1 Hb1 Hn1 HC1 Heq]; subst.
    + destruct (Hc1 c (LBRACE :: m ++ RBRACE :: s)); [done..|].
      rewrite app_nil_r. by apply marker_at_intro.
    + apply chunk_before_marker_unique in Heq as [-> Heq];
        [|by apply marker_at_intro..|done|done].
      injection Heq as Heq.
      apply not_elem_of_app_cons_inv_l in Heq as (-> & _ & ->); [|done..].
      destruct (IH _ _ HC1) as [-> ->]. done.
Qed.


(** C1. For every input text, [parse_speechtypes_text] cuts the text at its
    [{style}] markers from left to right: the text is a first chunk followed
    by markers, each with the chunk behind it, no marker starts inside a
    chunk (chunks are maximal), and the result lists, in order, one segment
    for every chunk that is not blank, holding the chunk stripped of
    surrounding whitespace and labelled with the stripped name of the marker
    just before it, or with "Regular" for the chunk before the first
    marker. *)
Theorem parse_speechtypes_text_spec (gen_text : str) :
  ∃ (c0 : str) (l : list (str * str)),
    Chunks gen_text c0 l ∧
    parse_speechtypes_text gen_text =
      labelled Regular c0 ++ flat_map (λ mc, labelled (strip mc.1) mc.2) l.
Proof.
  destruct (split_marker_chunks gen_text) as (c0 & l & HC & Htok).
  exists c0, l. split; [done|].
  unfold parse_speechtypes_text. cbv zeta. rewrite Htok.
  apply (parse_loop [] c0 l [] Regular). done.
Qed.

(** ** The normalizer

    Three facts about Python's character tables are used: a digit is a word
    character, a Latin letter is not a digit, and the space is not a
    digit. *)

Section Tables.

Hypothesis digit_is_word : ∀ c, isdigit c = true → isword c = true.
Hypothesis latin_not_digit : ∀ c, islatin c = true → isdigit c = false.
Hypothesis space_not_digit : isdigit SPACE = false.

Lemma sub_letter_digit_cons_other b r :
  islatin b = false → sub_letter_digit (b :: r) = b :: sub_letter_digit r.
Proof. intros Hb. simpl. rewrite Hb. by destruct r. Qed.

Lemma sub_digit_letter_cons_other b r :
  isdigit b = false → sub_digit_letter (b :: r) = b :: sub_digit_letter r.
Proof. intros Hb. simpl. rewrite Hb. by destruct r. Qed.

Lemma sub_letter_digit_head b r :
  ∃ y, sub_letter_digit (b :: r) = b :: y.
Proof. simpl. destruct r as [|c r]; [by eexists|]. destruct (_ && _); by eexists. Qed.

Lemma sub_letter_digit_cons2 a b r :
  sub_letter_digit (a :: b :: r) =
  if islatin a && isdigit b then a :: SPACE :: b :: sub_letter_digit r
  else a :: sub_letter_digit (b :: r).
Proof. done. Qed.

Lemma sub_digit_letter_cons2 a b r :
  sub_digit_letter (a :: b :: r) =
  if isdigit a && islatin b then a :: SPACE :: b :: sub_digit_letter r
  else a :: sub_digit_letter (b :: r).
Proof. done. Qed.

Lemma separate_cons2 a b r :
  separate (a :: b :: r) =
  a :: (if letter_digit_pair a b then [SPACE] else []) ++ separate (b :: r).
Proof. done. Qed.

(** The two substitutions together put a space into every letter/digit
    pair of the text, whichever comes first. *)
Lemma separate_correct s :
  sub_digit_letter (sub_letter_digit s) = separate s.
Proof using Type latin_not_digit space_not_digit.
  induction s as [|a [|b r] IH]; [done..|].
  rewrite separate_cons2, <- IH, sub_letter_digit_cons2.
  unfold letter_digit_pair.
  assert (∀ c, isdigit c = true → islatin c = false) as digit_not_latin.
  { intros c Hc. destruct (islatin c) eqn:E; [|done].
    apply latin_not_digit in E. congruence. }
  destruct (islatin a) eqn:Ha, (isdigit b) eqn:Hb; cbn [andb orb].
  - rewrite (sub_letter_digit_cons_other b) by auto.
    rewrite !sub_digit_letter_cons2, space_not_digit, andb_false_r.
    by cbn [andb List.app].
  - destruct (sub_letter_digit_head b r) as [y Hy]. rewrite Hy.
    rewrite sub_digit_letter_cons2, (latin_not_digit a Ha).
    by cbn [andb List.app].
  - destruct (sub_letter_digit_head b r) as [y Hy]. rewrite Hy.
    rewrite sub_digit_letter_cons2, (digit_not_latin b Hb), !andb_false_r.
    by cbn [List.app].
  - destruct (sub_letter_digit_head b r) as [y Hy]. rewrite Hy.
    rewrite sub_digit_letter_cons2.
    destruct (isdigit a && islatin b) eqn:E; cbn [List.app]; [|done].
    by rewrite (sub_digit_letter_cons_other b y Hb).
Qed.

Lemma sub_numbers_cons prev c s :
  sub_numbers prev (c :: s) =
  match match_number prev (c :: s) with
  | Some (m, r) => replace_number m ++ sub_numbers (last m) r
  | None => c :: sub_numbers (Some c) s
  end.
Proof.
  funelim (sub_numbers prev (c :: s)).
  - by rewrite E.
  - by rewrite e.
Qed.

Lemma match_number_other prev c s :
  isdigit c = false → match_number prev (c :: s) = None.
Proof.
  intros Hc. unfold match_number. simpl. rewrite Hc. by destruct (word_boundary _ _).
Qed.

Lemma match_digits_boundary_other s :
  isdigit_opt (head s) = false → match_digits_boundary s = None.
Proof. destruct s as [|c s]; simpl; [done|]. by intros ->. Qed.

(** On a maximal run of digits [\d+\b] takes the whole run or nothing. *)
Lemma match_digits_boundary_run run rest :
  run ≠ [] → Forall (λ c, isdigit c = true) run →
  isdigit_opt (head rest) = false →
  match_digits_boundary (run ++ rest) =
  if isword_opt (head rest) then None else Some (run, rest).
Proof using Type digit_is_word.
  intros Hne Hrun Hrest. induction Hrun as [|c run Hc Hrun IH]; [done|].
  cbn [List.app match_digits_boundary]. rewrite Hc.
  destruct run as [|c' run].
  - cbn [List.app]. rewrite (match_digits_boundary_other rest Hrest).
    unfold word_boundary. cbn [isword_opt]. rewrite (digit_is_word c Hc).
    by destruct (isword_opt (head rest)).
  - rewrite IH by done.
    destruct (isword_opt (head rest)); [|done].
    unfold word_boundary. cbn [List.app head isword_opt].
    rewrite (digit_is_word c Hc).
    apply Forall_cons_1 in Hrun as [Hc' _]. by rewrite (digit_is_word c' Hc').
Qed.

Lemma last_cons_from_option (c : char) (run : str) (prev : option char) :
  from_option Some prev (last (c :: run)) = from_option Some (Some c) (last run).
Proof.
  destruct run as [|c' run]; [done|]. rewrite last_cons_cons.
  destruct (last (c' :: run)) eqn:E; [done|]. by apply last_None in E.
Qed.

Lemma last_cons_is_last (c : char) (run : str) (prev : option char) :
  from_option Some prev (last (c :: run)) = last (c :: run).
Proof.
  destruct (last (c :: run)) eqn:E; [done|]. by apply last_None in E.
Qed.

(** Digits that follow a word character are copied. *)
Lemma sub_numbers_copy run rest prev :
  Forall (λ c, isdigit c = true) run → isword_opt prev = true →
  sub_numbers prev (run ++ rest) =
  run ++ sub_numbers (from_option Some prev (last run)) rest.
Proof using Type digit_is_word.
  intros Hrun. revert prev. induction Hrun as [|c run Hc Hrun IH]; intros prev Hp.
  - done.
  - cbn [List.app]. rewrite sub_numbers_cons. unfold match_number, word_boundary.
    cbn [head isword_opt]. rewrite Hp, (digit_is_word c Hc). cbn [xorb].
    rewrite IH by (cbn; auto). by rewrite last_cons_from_option.
Qed.

(** Every text is a run of digits and a rest that does not start with a
    digit. *)
Lemma digits_span s :
  ∃ run rest, s = run ++ rest ∧ Forall (λ c, isdigit c = true) run ∧
              isdigit_opt (head rest) = false.
Proof.
  induction s as [|c s (run & rest & -> & Hrun & Hrest)].
  - exists [], []. split; [done|]. split; [constructor|done].
  - destruct (isdigit c) eqn:Hc.
    + exists (c :: run), rest. split; [done|]. split; [by constructor|done].
    + exists [], (c :: run ++ rest). split; [done|]. split; [constructor|done].
Qed.

Lemma sub_numbers_Replaced n :
  ∀ s prev, (length s ≤ n)%nat →
    isdigit_opt prev && isdigit_opt (head s) = false →
    Replaced prev s (sub_numbers prev s).
Proof using Type digit_is_word.
  induction n as [|n IH]; intros s prev Hlen Hpre.
  { destruct s; [|simpl in Hlen; lia]. simp sub_numbers. constructor. }
  destruct s as [|c s]; [simp sub_numbers; constructor|].
  cbn [length] in Hlen. cbn [head isdigit_opt] in Hpre.
  destruct (isdigit c) eqn:Hc.
  - rewrite andb_true_r in Hpre.
    destruct (digits_span s) as (run & rest & -> & Hrun & Hrest).
    assert (Forall (λ c, isdigit c = true) (c :: run)) as Hrun' by by constructor.
    assert (length rest ≤ n)%nat as Hlen'.
    { rewrite length_app in Hlen. lia. }
    assert (Replaced (last (c :: run)) rest (sub_numbers (last (c :: run)) rest))
      as Hrec.
    { apply IH; [done|]. by rewrite Hrest, andb_false_r. }
    change (c :: run ++ rest) with ((c :: run) ++ rest).
    destruct (isword_opt prev) eqn:Hp.
    + rewrite (sub_numbers_copy (c :: run)) by done.
      rewrite last_cons_is_last.
      pose proof (Replaced_run prev (c :: run) rest _ ltac:(done) Hrun' Hpre Hrest Hrec) as HR.
      unfold delimited in HR. by rewrite Hp in HR.
    + cbn [List.app]. rewrite sub_numbers_cons. unfold match_number, word_boundary.
      cbn [head isword_opt]. rewrite Hp, (digit_is_word c Hc). cbn [xorb].
      change (c :: run ++ rest) with ((c :: run) ++ rest).
      rewrite match_digits_boundary_run by done.
      pose proof (Replaced_run prev (c :: run) rest _ ltac:(done) Hrun' Hpre Hrest Hrec) as HR.
      unfold delimited in HR. rewrite Hp in HR. cbn [negb andb] in HR.
      destruct (isword_opt (head rest)); cbn [negb] in HR.
      * rewrite (sub_numbers_copy run) by (cbn; auto).
        by rewrite <- (last_cons_from_option c run None), last_cons_is_last.
      * done.
  - rewrite sub_numbers_cons, match_number_other by done.
    apply Replaced_other; [done|]. apply IH; [lia|]. cbn. by rewrite Hc.
Qed.

Lemma digits_span_unique run rest run' rest' :
  Forall (λ c, isdigit c = true) run → Forall (λ c, isdigit c = true) run' →
  isdigit_opt (head rest) = false → isdigit_opt (head rest') = false →
  run ++ rest = run' ++ rest' → run = run' ∧ rest = rest'.
Proof.
  intros Hrun. revert run'.
  induction Hrun as [|c run Hc Hrun IH]; intros run' Hrun' Hrest Hrest' Heq.
  - destruct Hrun' as [|c' run' Hc' Hrun']; [done|].
    cbn [List.app] in Heq. subst rest. cbn in Hrest. congruence.
  - destruct Hrun' as [|c' run' Hc' Hrun'].
    + cbn [List.app] in Heq. subst rest'. cbn in Hrest'. congruence.
    + injection Heq as -> Heq. by destruct (IH run' Hrun' Hrest Hrest' Heq) as [-> ->].
Qed.

Lemma Replaced_inv prev s out :
  Replaced prev s out →
  (s = [] ∧ out = []) ∨
  (∃ c s' out', s = c :: s' ∧ isdigit c = false ∧
     Replaced (Some c) s' out' ∧ out = c :: out') ∨
  (∃ run rest out', s = run ++ rest ∧ run ≠ [] ∧
     Forall (λ c, isdigit c = true) run ∧
     isdigit_opt (head rest) = false ∧
     Replaced (last run) rest out' ∧
     out = (if delimited prev rest then num2words (int run) else run) ++ out').
Proof.
  destruct 1 as [prev|prev c s out Hc H|prev run rest out Hne Hrun Hprev Hrest H].
  - by left.
  - right; left. by exists c, s, out.
  - right; right. by exists run, rest, out.
Qed.

(** [Replaced] determines its output. *)
Lemma Replaced_unique prev s out out' :
  Replaced prev s out → Replaced prev s out' → out = out'.
Proof.
  intros H. revert out'.
  induction H as [prev|prev c s out Hc H IH|prev run rest out Hne Hrun Hprev Hrest H IH];
    intros out' H';
    apply Replaced_inv in H'
      as [[Es ->]|[(c' & s' & o' & Es & Hc' & H' & ->)
                  |(run' & rest' & o' & Es & Hne' & Hrun' & Hrest' & H' & ->)]].
  - done.
  - done.
  - symmetry in Es. apply app_eq_nil in Es as [-> _]. done.
  - done.
  - injection Es as <- <-. f_equal. by apply IH.
  - destruct Hrun' as [|d run' Hd Hrun']; [done|].
    injection Es as -> _. congruence.
  - apply app_eq_nil in Es as [-> _]. done.
  - destruct Hrun as [|d run Hd Hrun]; [done|].
    injection Es as -> _. congruence.
  - apply digits_span_unique in Es as [-> ->]; [|done..].
    f_equal. by apply IH.
Qed.

(** C2. For every text, [convert_numbers_to_arabic_text] first puts a space
    into every adjacent pair of a Latin letter and a digit, in either
    order, and then replaces every maximal run of decimal digits that is
    delimited by word boundaries with [num2words(int(run), lang='ar')],
    keeping every other character.  The facts used about Python's tables:
    a digit is a word character, a Latin letter is not a digit, the space is
    not a digit. *)
Theorem convert_numbers_to_arabic_text_spec (text : str) :
  Replaced None (separate text) (convert_numbers_to_arabic_text text).
Proof using Type digit_is_word latin_not_digit space_not_digit.
  unfold convert_numbers_to_arabic_text. cbv zeta. rewrite separate_correct.
  by apply (sub_numbers_Replaced (length (separate text))).
Qed.

End Tables.

(** ** The monad *)

Lemma bind_Ok {A B} (m : M A) (k : A → M B) s a s' :
  m s = (Ok a, s') → bind m k s = k a s'.
Proof. unfold bind. by intros ->. Qed.

Lemma bind_Raise {A B} (m : M A) (k : A → M B) s e s' :
  m s = (Raise e, s') → bind m k s = (Raise e, s').
Proof. unfold bind. by intros ->. Qed.

Lemma ext_run {X} (e : extE X) s :
  ext e s =
  (Ok (answer X e (world s)).1,
   State (answer X e (world s)).2
     (log s ++ [Called e (answer X e (world s)).1]) (heap s)).
Proof. unfold ext. by destruct (answer X e (world s)). Qed.

Lemma calls_since_app s s' new :
  log s' = log s ++ new → calls_since s s' = new.
Proof. unfold calls_since. intros ->. by rewrite drop_app_length. Qed.

(** ** [infer] *)

Lemma startswith_prefix p s : startswith p s = true ↔ p `prefix_of` s.
Proof.
  revert s. induction p as [|a p IH]; intros s; simpl.
  - split; [intros _; apply prefix_nil|done].
  - destruct s as [|b s].
    + split; [done|]. by intros ?%prefix_nil_not.
    + rewrite andb_true_iff, N.eqb_eq, IH. split.
      * intros [-> ?]. by apply prefix_cons.
      * intros H. split; [by apply prefix_cons_inv_1 in H|by apply prefix_cons_inv_2 in H].
Qed.

Lemma rev_is_reverse {A} (l : list A) : rev l = reverse l.
Proof. apply rev_alt. Qed.

Lemma endswith_suffix p s : endswith p s = true ↔ p `suffix_of` s.
Proof.
  unfold endswith. rewrite startswith_prefix, !rev_is_reverse.
  symmetry. apply suffix_prefix_reverse.
Qed.

Lemma leading_space_correct t :
  (if negb (startswith str_space t) then str_space ++ t else t) =
  with_leading_space t.
Proof.
  unfold with_leading_space. destruct t as [|c t]; [done|].
  cbn [startswith str_space head]. rewrite andb_true_r.
  destruct (N.eqb_spec 32 c) as [<-|Hc]; cbn [negb].
  - by rewrite decide_True.
  - rewrite decide_False; [done|]. by intros [= ->].
Qed.

Lemma final_stop_correct t :
  (if negb (endswith str_dot_space t) then t ++ str_dot_space else t) =
  with_final_stop t.
Proof.
  unfold with_final_stop. destruct (endswith str_dot_space t) eqn:E; cbn [negb].
  - apply endswith_suffix in E. by rewrite decide_True.
  - rewrite decide_False; [done|]. intros H%endswith_suffix. congruence.
Qed.


(** A run of [infer] never raises; it makes the calls of [infer_calls]. *)
Lemma infer_run ref_audio_orig ref_text gen_text model remove_silence
    cross_fade_duration speed show_info s :
  let r := infer_calls ref_audio_orig ref_text gen_text remove_silence
             cross_fade_duration speed show_info (world s) in
  infer ref_audio_orig ref_text gen_text model remove_silence
    cross_fade_duration speed show_info s =
  (Ok r.2, State r.1.2 (log s ++ r.1.1) (heap s)).
Proof.
  unfold infer_calls, infer_calls_trimmed, infer_calls_plain, infer, normalized.
  rewrite leading_space_correct, final_stop_correct.
  unfold bind at 1. rewrite ext_run.
  destruct (answer _ (PreprocessRefAudioText _ _ _) (world s))
    as [[ref_audio ref_text'] w1] eqn:E1.
  cbn [fst snd world log heap].
  unfold bind at 1. rewrite ext_run. cbn [fst snd world log heap].
  destruct (answer _ (InferProcess _ _ _ _ _ _) w1)
    as [[[wave0 sr0] spec0] w2] eqn:E2.
  cbn [fst snd].
  destruct (truthy remove_silence).
  - unfold bind, ret.
    repeat first [rewrite ext_run | progress cbn [fst snd world log heap]].
    destruct (answer _ (TorchaudioLoad _) _) as [[t sr'] w6].
    repeat first [rewrite ext_run | progress cbn [fst snd world log heap]].
    by rewrite <- !app_assoc.
  - unfold bind, ret.
    repeat first [rewrite ext_run | progress cbn [fst snd world log heap]].
    by rewrite <- !app_assoc.
Qed.


(** C7. On every call [infer] normalizes the generation text before
    synthesis: a single space is put in front unless the text starts with a
    space, ". " is put behind unless the text ends with it, the result is
    lowercased and its numbers are converted by
    [convert_numbers_to_arabic_text]; [infer_process] is called once, with
    exactly this text. *)
Theorem infer_normalizes_gen_text ref_audio_orig ref_text gen_text model
    remove_silence cross_fade_duration speed show_info s :
  ∃ r s',
    infer ref_audio_orig ref_text gen_text model remove_silence
      cross_fade_duration speed show_info s = (Ok r, s') ∧
    infer_process_texts (calls_since s s') =
      [convert_numbers_to_arabic_text
         (lower (with_final_stop (with_leading_space gen_text)))].
Proof.
  eexists _, _. split; [apply infer_run|].
  erewrite calls_since_app by done.
  unfold infer_calls. by destruct (truthy remove_silence).
Qed.

(** C5. [infer] removes silence from the generated waveform only when
    [remove_silence] is true: then the waveform of [infer_process] is
    written to a file, the file is trimmed, and what is read back is
    returned; when the flag is false nothing is written, trimmed or read and
    the waveform of [infer_process] is returned as it is.  Whatever the
    flag, [infer_process] returns the same waveform, sample rate and
    spectrogram, the sample rate returned is that one and the spectrogram
    saved, at the path returned, is that one. *)
Theorem infer_remove_silence_frame ref_audio_orig ref_text gen_text model
    cross_fade_duration speed show_info s :
  ∃ wave0 sr0 spec0, ∀ remove_silence, ∃ final_wave spectrogram_path s',
    infer ref_audio_orig ref_text gen_text model remove_silence
      cross_fade_duration speed show_info s =
      (Ok ((sr0, final_wave), spectrogram_path), s') ∧
    infer_process_results (calls_since s s') = [(wave0, sr0, spec0)] ∧
    spectrograms_saved (calls_since s s') = [(spec0, spectrogram_path)] ∧
    if truthy remove_silence then
      ∃ f t,
        soundfile_writes (calls_since s s') = [(f, wave0, sr0)] ∧
        silence_removals (calls_since s s') = [f] ∧
        torchaudio_loads (calls_since s s') = [(f, t)] ∧
        final_wave = squeeze_cpu_numpy t
    else
      soundfile_writes (calls_since s s') = [] ∧
      silence_removals (calls_since s s') = [] ∧
      torchaudio_loads (calls_since s s') = [] ∧
      final_wave = wave0.
Proof.
  destruct (answer _
    (PreprocessRefAudioText ref_audio_orig ref_text (Some show_info)) (world s))
    as [[ref_audio ref_text'] w1] eqn:E1.
  destruct (answer _
    (InferProcess ref_audio ref_text' (normalized gen_text) cross_fade_duration
       speed show_info) w1) as [[[wave0 sr0] spec0] w2] eqn:E2.
  exists wave0, sr0, spec0. intros remove_silence.
  pose proof (infer_run ref_audio_orig ref_text gen_text model remove_silence
                cross_fade_duration speed show_info s) as Hrun.
  cbv zeta in Hrun. unfold infer_calls in Hrun.
  destruct (truthy remove_silence);
    unfold infer_calls_trimmed, infer_calls_plain in Hrun;
    cbv zeta in Hrun; rewrite E1 in Hrun; cbn [fst snd] in Hrun;
    rewrite E2 in Hrun; cbn [fst snd] in Hrun;
    eexists _, _, _; (split; [exact Hrun|]);
    erewrite calls_since_app by reflexivity.
  - split; [reflexivity|]. split; [reflexivity|].
    eexists _, _. repeat split; reflexivity.
  - repeat split; reflexivity.
Qed.


(** ** [generate_multistyle_speech] *)

Lemma collect_speech_types_regular regular_audio regular_ref_text names audios texts :
  is_Some (collect_speech_types regular_audio regular_ref_text names audios texts
             !! VStr Regular).
Proof.
  unfold collect_speech_types.
  generalize (zip names (zip audios texts)). intros l.
  assert (is_Some (({[VStr Regular := SpeechType regular_audio regular_ref_text]}
                     : gmap value speech_type) !! VStr Regular)) as H.
  { rewrite lookup_singleton_eq. by eexists. }
  revert H. generalize ({[VStr Regular := SpeechType regular_audio regular_ref_text]}
                         : gmap value speech_type).
  induction l as [|[n [a t]] l IH]; intros m Hm; [done|].
  cbn [fold_left]. apply IH.
  destruct (truthy n && truthy a); [|done].
  destruct (decide (n = VStr Regular)) as [->|Hne].
  - rewrite lookup_insert_eq. by eexists.
  - by rewrite lookup_insert_ne.
Qed.

(** A lookup in the dictionary after the rows have been entered. *)
Lemma collect_speech_types_fold
    (rows : list (value * (value * value))) (m : gmap value speech_type) k :
  fold_left
    (λ speech_types '(name_input, (audio_input, ref_text_input)),
       if truthy name_input && truthy audio_input
       then <[name_input := SpeechType audio_input ref_text_input]> speech_types
       else speech_types)
    rows m !! k =
  match last_row_named k
          (List.filter (λ row, truthy row.1 && truthy row.2.1) rows) with
  | Some row => Some (SpeechType row.2.1 row.2.2)
  | None => m !! k
  end.
Proof.
  revert m. induction rows as [|[n [a t]] rows IH]; intros m; [done|].
  cbn [fold_left List.filter fst snd]. rewrite IH. unfold last_row_named.
  destruct (truthy n && truthy a); [|done].
  cbn [List.filter fst]. destruct (decide (n = k)) as [->|Hne].
  - rewrite bool_decide_true by done. rewrite lookup_insert_eq.
    destruct (List.filter _ (List.filter _ rows)) as [|row rows'] eqn:E; [done|].
    rewrite last_cons_cons.
    destruct (last (row :: rows')) eqn:E'; [done|]. by apply last_None in E'.
  - rewrite bool_decide_false by done. by rewrite lookup_insert_ne.
Qed.

(** The entry the loop body looks up is the chosen speech type. *)
Lemma multistyle_step_entry (speech_types : gmap value speech_type) regular sty :
  speech_types !! VStr Regular = Some regular →
  speech_types !! VStr (if bool_decide (is_Some (speech_types !! VStr sty))
                        then sty else Regular) =
  Some (chosen_speech_type speech_types regular sty).
Proof.
  intros Hreg. unfold chosen_speech_type.
  destruct (speech_types !! VStr sty) as [ty|] eqn:E.
  - rewrite bool_decide_true by by eexists. by rewrite E.
  - rewrite bool_decide_false by by intros [? ?]. by rewrite Hreg.
Qed.

(** The loop of [generate_multistyle_speech], started in any loop state. *)
Lemma multistyle_loop (speech_types : gmap value speech_type) regular
    model_choice remove_silence segments acc cur sr s :
  speech_types !! VStr Regular = Some regular →
  ∃ cur',
    foldM (multistyle_step speech_types model_choice remove_silence)
      segments (acc, cur, sr) s =
    match
      for_each
        (synthesize_segment speech_types regular model_choice remove_silence)
        segments s
    with
    | (Ok outs, s') =>
        (Ok (acc ++ map snd outs, cur',
             from_option (λ o, Some o.1) sr (last outs)), s')
    | (Raise e, s') => (Raise e, s')
    end.
Proof.
  intros Hreg. revert acc cur sr s.
  induction segments as [|seg segments IH]; intros acc cur sr s.
  - exists cur. cbn. by rewrite app_nil_r.
  - cbn [foldM for_each]. unfold multistyle_step at 1.
    unfold bind at 1. unfold bind at 1.
    rewrite (multistyle_step_entry _ _ _ Hreg). unfold ret at 1.
    unfold synthesize_segment at 1. unfold bind, ret.
    destruct (infer _ _ _ _ _ _ _ _ s) as [[[[sr1 w1] p1]|e] s1]; [|by exists cur].
    cbn [fst snd].
    destruct (IH (acc ++ [w1])
                (if bool_decide (is_Some (speech_types !! VStr (style seg)))
                 then style seg else Regular) (Some sr1) s1) as [cur' ->].
    exists cur'.
    destruct (for_each _ segments s1) as [[outs|e] s2]; [|done].
    cbn [map snd fst]. rewrite <- app_assoc. cbn [List.app].
    do 3 f_equal. destruct outs as [|o outs]; [done|].
    rewrite last_cons_cons.
    destruct (last (o :: outs)) eqn:E; [done|]. by apply last_None in E.
Qed.


(** What [generate_multistyle_speech] does once its two trailing arguments
    are there. *)
Lemma generate_multistyle_speech_run regular_audio regular_ref_text gen_text
    args model_choice remove_silence s :
  args !! 297%nat = Some model_choice →
  args !! 298%nat = Some remove_silence →
  ∃ regular,
    speech_types_of regular_audio regular_ref_text args !! VStr Regular
      = Some regular ∧
    generate_multistyle_speech regular_audio regular_ref_text gen_text args s =
    synthesize_segments (speech_types_of regular_audio regular_ref_text args)
      regular model_choice remove_silence (parse_speechtypes_text gen_text) s.
Proof.
  intros Hmc Hrs.
  assert (is_Some (speech_types_of regular_audio regular_ref_text args
                     !! VStr Regular)) as [regular Hreg]
    by apply collect_speech_types_regular.
  exists regular. split; [done|].
  unfold generate_multistyle_speech, synthesize_segments. cbv zeta.
  change (max_speech_types - 1)%nat with 99%nat.
  change (3 * 99 + 1)%nat with 298%nat. change (3 * 99)%nat with 297%nat.
  change (2 * 99)%nat with 198%nat.
  fold (speech_types_of regular_audio regular_ref_text args).
  unfold index. rewrite Hmc, Hrs.
  unfold bind at 1. unfold ret at 1. unfold bind at 1. unfold ret at 1.
  unfold bind at 1.
  destruct (multistyle_loop _ _ model_choice remove_silence
              (parse_speechtypes_text gen_text) [] Regular None s Hreg)
    as [cur' ->].
  unfold bind, ret, raise.
  destruct (for_each _ _ s) as [[outs|e] s']; [|done].
  cbn [List.app]. destruct outs as [|o outs].
  - by rewrite bool_decide_false by (intros H; by apply H).
  - rewrite bool_decide_true by done.
    destruct (last (o :: outs)) as [[sr w]|] eqn:E; [done|].
    by apply last_None in E.
Qed.

(** A click on the generate button always hands over the two trailing
    arguments.  As [speech_type_names] holds 100 boxes and the handler
    counts 99, what the handler takes for the model choice is the reference
    text of the last row, and what it takes for the silence flag is the
    model choice. *)
Lemma on_generate_click_arguments regular_name
    (name_inputs audio_inputs ref_text_inputs : list value)
    model_choice remove_silence :
  length name_inputs = 99%nat → length audio_inputs = 99%nat →
  length ref_text_inputs = 99%nat →
  let args := speech_type_names regular_name name_inputs ++ audio_inputs
                ++ ref_text_inputs ++ [model_choice; remove_silence] in
  args !! 297%nat = ref_text_inputs !! 98%nat ∧
  is_Some (ref_text_inputs !! 98%nat) ∧
  args !! 298%nat = Some model_choice.
Proof.
  intros Hn Ha Ht args. unfold args, speech_type_names.
  rewrite !(lookup_app_r (regular_name :: name_inputs)) by (cbn; lia).
  cbn [length]. rewrite Hn.
  rewrite !(lookup_app_r audio_inputs) by lia. rewrite Ha.
  split; [|split].
  - rewrite lookup_app_l by lia. done.
  - apply lookup_lt_is_Some. lia.
  - rewrite lookup_app_r by lia. by rewrite Ht.
Qed.

(** C4. [generate_multistyle_speech] takes the segments of the parsed text
    in order, synthesizes each with [infer] on the reference audio and text
    of the segment's speech type, and returns the waveforms concatenated in
    that order, with the sample rate; when there is no segment it shows a
    warning and returns [None].  The speech type of a segment is what its
    style stands for among the rows handed over, the audio and reference
    text of the last row with that name and an audio, the regular audio
    and reference text for "Regular" when no row is named so, and what
    "Regular" stands for when the style stands for nothing.  The two
    trailing arguments, the model choice and the silence flag, have to be
    there. *)
Theorem generate_multistyle_speech_spec regular_audio regular_ref_text gen_text
    args model_choice remove_silence s :
  args !! 297%nat = Some model_choice →
  args !! 298%nat = Some remove_silence →
  ∃ (speech_types : gmap value speech_type) regular,
    (∀ k, speech_types !! k =
          speech_type_named regular_audio regular_ref_text
            (slice args 0 99) (slice args 99 198) (slice args 198 297) k) ∧
    speech_type_named regular_audio regular_ref_text
      (slice args 0 99) (slice args 99 198) (slice args 198 297) (VStr Regular)
      = Some regular ∧
    generate_multistyle_speech regular_audio regular_ref_text gen_text args s =
    synthesize_segments speech_types regular model_choice remove_silence
      (parse_speechtypes_text gen_text) s.
Proof.
  intros Hmc Hrs.
  destruct (generate_multistyle_speech_run regular_audio regular_ref_text
              gen_text args model_choice remove_silence s Hmc Hrs)
    as (regular & Hreg & Hrun).
  assert (∀ k, speech_types_of regular_audio regular_ref_text args !! k =
               speech_type_named regular_audio regular_ref_text
                 (slice args 0 99) (slice args 99 198) (slice args 198 297) k)
    as Hnamed.
  { intros k.
    unfold speech_types_of, collect_speech_types, speech_type_named,
      configured_rows.
    rewrite collect_speech_types_fold.
    destruct (last_row_named _ _); [done|].
    destruct (decide (k = VStr Regular)) as [->|Hne].
    - by rewrite lookup_singleton_eq.
    - by rewrite lookup_singleton_ne. }
  exists (speech_types_of regular_audio regular_ref_text args), regular.
  split; [done|]. split; [|done]. by rewrite <- Hnamed.
Qed.


(** One call of [infer] uses the reference it is given and synthesizes the
    normalized text. *)
Lemma infer_calls_observed ref_audio_orig ref_text gen_text remove_silence
    cross_fade_duration speed show_info w :
  let calls := (infer_calls ref_audio_orig ref_text gen_text remove_silence
                  cross_fade_duration speed show_info w).1.1 in
  references_used calls = [(ref_audio_orig, ref_text)] ∧
  infer_process_texts calls = [normalized gen_text].
Proof. unfold infer_calls. by destruct (truthy remove_silence). Qed.

(** The calls made for a list of segments. *)
Lemma for_each_infer_trace (speech_types : gmap value speech_type) regular
    model_choice remove_silence segments s :
  ∃ outs s' new,
    for_each
      (synthesize_segment speech_types regular model_choice remove_silence)
      segments s = (Ok outs, s') ∧
    log s' = log s ++ new ∧
    references_used new =
      (λ seg, let ty := chosen_speech_type speech_types regular (style seg) in
              (audio ty, ref_text ty)) <$> segments ∧
    infer_process_texts new = (λ seg, normalized (text seg)) <$> segments.
Proof.
  revert s. induction segments as [|seg segments IH]; intros s.
  - exists [], s, []. by rewrite app_nil_r.
  - cbn [for_each]. unfold synthesize_segment at 1. cbv zeta.
    unfold bind at 1. unfold bind at 1.
    rewrite infer_run. cbv zeta. unfold ret at 1.
    set (r := infer_calls _ _ _ _ _ _ _ _).
    destruct (infer_calls_observed
                (audio (chosen_speech_type speech_types regular (style seg)))
                (ref_text (chosen_speech_type speech_types regular (style seg)))
                (text seg) remove_silence 0 1 py_print (world s))
      as [Href Htxt].
    cbv zeta in Href, Htxt. fold r in Href, Htxt.
    destruct (IH (State r.1.2 (log s ++ r.1.1) (heap s)))
      as (outs & s' & new & Hrun & Hlog & Hrefs & Htxts).
    unfold bind at 1. rewrite Hrun. unfold ret.
    exists (r.2.1 :: outs), s', (r.1.1 ++ new).
    split; [done|]. split.
    { rewrite Hlog. cbn [log]. by rewrite app_assoc. }
    unfold references_used, infer_process_texts in *.
    rewrite !omap_app, Href, Htxt, Hrefs, Htxts. done.
Qed.



(** ** [process_audio_input] *)

Lemma generate_response_heap messages s r s1 :
  generate_response messages s = (r, s1) → heap s1 = heap s.
Proof.
  unfold generate_response, list_read, index, bind, ret, raise.
  repeat first [rewrite ext_run | progress cbn [fst snd world log heap]].
  destruct (_ !! 0%nat); by intros [= <- <-].
Qed.

Lemma user_message_heap audio_path text s r s0 :
  user_message audio_path text s = (r, s0) → heap s0 = heap s.
Proof.
  unfold user_message, bind, ret. destruct (truthy audio_path).
  - rewrite ext_run. by intros [= <- <-].
  - by intros [= <- <-].
Qed.

Lemma user_message_Ok audio_path text s :
  ∃ message s0, user_message audio_path text s = (Ok message, s0).
Proof.
  unfold user_message, bind, ret. destruct (truthy audio_path).
  - rewrite ext_run. by eexists _, _.
  - by eexists _, _.
Qed.

(** C6. When a call of [process_audio_input] has a user message that is not
    blank (the text of the box, or the transcription when an audio path is
    given) and the reply is generated, the list passed as conversation
    state has two more entries, the message with role "user" and then the
    reply with role "assistant", the list passed as history has one more
    pair (message, reply), no other list is touched, and the same two lists
    and an empty string are returned.  When there is no audio path and the
    text is blank, the two lists are returned and nothing is changed. *)
Theorem process_audio_input_spec audio_path text history conv_state s :
  (truthy audio_path = false → nonempty (strip text) = false →
   process_audio_input audio_path text history conv_state s =
     (Ok (history, conv_state, []), s)) ∧
  (history ≠ conv_state →
   ∀ message s0 response s1,
     user_message audio_path text s = (Ok message, s0) →
     nonempty (strip message) = true →
     generate_response conv_state
       (with_user_message history conv_state message s0) = (Ok response, s1) →
     ∃ s',
       process_audio_input audio_path text history conv_state s =
         (Ok (history, conv_state, []), s') ∧
       heap s' !!! conv_state =
         heap s !!! conv_state ++
           [Message role_user message; Message role_assistant response] ∧
       heap s' !!! history =
         heap s !!! history ++ [Turn message (Some response)] ∧
       (∀ l, l ≠ history → l ≠ conv_state → heap s' !! l = heap s !! l) ∧
       world s' = world s1 ∧ log s' = log s1).
Proof.
  split.
  - intros Ha Ht. unfold process_audio_input. by rewrite Ha, Ht.
  - intros Hne message s0 response s1 Hmsg Hnb Hgen.
    pose proof (user_message_heap _ _ _ _ _ Hmsg) as Hh0.
    pose proof (generate_response_heap _ _ _ _ Hgen) as Hh1.
    unfold with_user_message in Hgen, Hh1. cbn [heap] in Hh1.
    unfold process_audio_input.
    assert (negb (truthy audio_path) && negb (nonempty (strip text)) = false)
      as ->.
    { destruct (truthy audio_path) eqn:Ha; [done|].
      unfold user_message in Hmsg. rewrite Ha in Hmsg.
      injection Hmsg as -> _. by rewrite Hnb. }
    fold (user_message audio_path text).
    rewrite (bind_Ok _ _ _ _ _ Hmsg), Hnb. cbn [negb].
    unfold bind at 1. unfold list_append at 1. cbn [world log heap].
    unfold bind at 1. unfold list_append at 1. cbn [world log heap].
    rewrite lookup_total_insert_ne by done.
    unfold bind at 1. rewrite Hgen.
    unfold bind at 1. unfold list_append at 1.
    unfold bind at 1. unfold list_set_last, ret. cbn [world log heap].
    rewrite Hh1, Hh0.
    rewrite lookup_total_insert_ne by done.
    rewrite !lookup_total_insert_eq.
    destruct (heap s !!! history ++ [Turn message None]) as [|x xs] eqn:E.
    { by apply app_eq_nil in E as [_ ?]. }
    rewrite <- E. rewrite removelast_last.
    eexists. split; [reflexivity|]. cbn [heap world log].
    repeat first [rewrite lookup_total_insert_eq
                 |rewrite lookup_total_insert_ne by done].
    rewrite <- app_assoc.
    split; [done|]. split; [done|]. split; [|done].
    intros l Hl1 Hl2. by rewrite !lookup_insert_ne.
Qed.


(** * Further properties of the normalizer *)

Lemma sub_letter_digit_no_digit s :
  Forall (λ c, isdigit c = false) s → sub_letter_digit s = s.
Proof.
  induction 1 as [|a s Ha Hs IH]; [done|].
  destruct Hs as [|b r Hb Hr]; [done|].
  rewrite sub_letter_digit_cons2, Hb, andb_false_r. by rewrite IH.
Qed.

Lemma sub_digit_letter_no_digit s :
  Forall (λ c, isdigit c = false) s → sub_digit_letter s = s.
Proof.
  induction 1 as [|a s Ha Hs IH]; [done|].
  rewrite sub_digit_letter_cons_other by done. by rewrite IH.
Qed.

(** Characters that are not digits are copied. *)
Lemma sub_numbers_copy_other x s prev :
  Forall (λ c, isdigit c = false) x →
  sub_numbers prev (x ++ s) =
  x ++ sub_numbers (from_option Some prev (last x)) s.
Proof.
  intros Hx. revert prev. induction Hx as [|c x Hc Hx IH]; intros prev; [done|].
  cbn [List.app]. rewrite sub_numbers_cons, match_number_other by done.
  rewrite IH. by rewrite last_cons_from_option.
Qed.

(** X4. A text without digits passes through
    [convert_numbers_to_arabic_text] unchanged. *)
Theorem convert_numbers_without_digits (text : str) :
  Forall (λ c, isdigit c = false) text →
  convert_numbers_to_arabic_text text = text.
Proof.
  intros H. unfold convert_numbers_to_arabic_text. cbv zeta.
  rewrite sub_letter_digit_no_digit, sub_digit_letter_no_digit by done.
  rewrite <- (app_nil_r text) at 1.
  rewrite sub_numbers_copy_other by done. simp sub_numbers.
  by rewrite app_nil_r.
Qed.

Section MoreTables.

Hypothesis digit_is_word : ∀ c, isdigit c = true → isword c = true.
Hypothesis latin_not_digit : ∀ c, islatin c = true → isdigit c = false.

Lemma digit_not_latin c : isdigit c = true → islatin c = false.
Proof using Type latin_not_digit.
  intros Hc. destruct (islatin c) eqn:E; [|done].
  apply latin_not_digit in E. congruence.
Qed.

Lemma sub_letter_digit_digits s :
  Forall (λ c, isdigit c = true) s → sub_letter_digit s = s.
Proof using Type latin_not_digit.
  induction 1 as [|a s Ha Hs IH]; [done|].
  rewrite sub_letter_digit_cons_other by by apply digit_not_latin.
  by rewrite IH.
Qed.

Lemma sub_digit_letter_digits s :
  Forall (λ c, isdigit c = true) s → sub_digit_letter s = s.
Proof using Type latin_not_digit.
  induction 1 as [|a s Ha Hs IH]; [done|].
  destruct Hs as [|b r Hb Hr]; [done|].
  rewrite sub_digit_letter_cons2, (digit_not_latin b Hb), andb_false_r.
  by rewrite IH.
Qed.

Lemma sub_digit_letter_other_digits x run :
  Forall (λ c, isdigit c = false) x → Forall (λ c, isdigit c = true) run →
  sub_digit_letter (x ++ run) = x ++ run.
Proof using Type latin_not_digit.
  intros Hx Hrun. induction Hx as [|a x Ha Hx IH].
  - by apply sub_digit_letter_digits.
  - cbn [List.app]. rewrite sub_digit_letter_cons_other by done. by rewrite IH.
Qed.

(** A run of digits at the end of the text, after a character that is not a
    word character or at the start, is replaced. *)
Lemma sub_numbers_final_run prev run :
  isword_opt prev = false →
  run ≠ [] → Forall (λ c, isdigit c = true) run →
  sub_numbers prev run = num2words (int run).
Proof using Type digit_is_word.
  intros Hp Hne Hrun. destruct Hrun as [|c run Hc Hrun]; [done|].
  rewrite sub_numbers_cons. unfold match_number, word_boundary.
  cbn [head isword_opt]. rewrite Hp, (digit_is_word c Hc). cbn [xorb].
  pose proof (match_digits_boundary_run digit_is_word (c :: run) [] Hne
                ltac:(by constructor) eq_refl) as Hm.
  rewrite app_nil_r in Hm. rewrite Hm. cbn [head isword_opt].
  simp sub_numbers. by rewrite app_nil_r.
Qed.

(** X5. A text that is nothing but a number becomes the words of the
    number. *)
Theorem convert_number_alone (run : str) :
  run ≠ [] → Forall (λ c, isdigit c = true) run →
  convert_numbers_to_arabic_text run = num2words (int run).
Proof using Type digit_is_word latin_not_digit.
  intros Hne Hrun. unfold convert_numbers_to_arabic_text. cbv zeta.
  rewrite sub_letter_digit_digits, sub_digit_letter_digits by done.
  by apply sub_numbers_final_run.
Qed.

Lemma sub_letter_digit_word_number w run :
  w ≠ [] → Forall (λ c, islatin c = true) w →
  run ≠ [] → Forall (λ c, isdigit c = true) run →
  sub_letter_digit (w ++ run) = w ++ SPACE :: run.
Proof using Type latin_not_digit.
  intros Hw Hlat Hne Hrun. induction Hlat as [|a w Ha Hlat IH]; [done|].
  destruct Hlat as [|a' w Ha' Hlat].
  - destruct Hrun as [|d run Hd Hrun]; [done|].
    cbn [List.app]. rewrite sub_letter_digit_cons2, Ha, Hd. cbn [andb].
    by rewrite sub_letter_digit_digits.
  - cbn [List.app]. rewrite sub_letter_digit_cons2.
    rewrite (latin_not_digit a' Ha'), andb_false_r.
    cbn [List.app] in IH. by rewrite IH.
Qed.

(** X6. A Latin word with a number right behind it: a space is put between
    the two and the number becomes its words, "abc12" gives "abc" and the
    words of 12.  Besides the two facts above this uses that the space is
    neither a digit nor a word character. *)
Theorem convert_word_then_number (w run : str) :
  isdigit SPACE = false → isword SPACE = false →
  w ≠ [] → Forall (λ c, islatin c = true) w →
  run ≠ [] → Forall (λ c, isdigit c = true) run →
  convert_numbers_to_arabic_text (w ++ run) = w ++ SPACE :: num2words (int run).
Proof using Type digit_is_word latin_not_digit.
  intros Hsd Hsw Hw Hlat Hne Hrun.
  unfold convert_numbers_to_arabic_text. cbv zeta.
  rewrite sub_letter_digit_word_number by done.
  assert (Forall (λ c, isdigit c = false) (w ++ [SPACE])) as Hx.
  { apply Forall_app. split.
    - eapply Forall_impl; [exact Hlat|]. intros c. apply latin_not_digit.
    - by constructor. }
  change (w ++ SPACE :: run) with (w ++ [SPACE] ++ run).
  rewrite app_assoc, sub_digit_letter_other_digits by done.
  rewrite sub_numbers_copy_other by done. rewrite last_snoc. cbn [from_option].
  rewrite sub_numbers_final_run by done.
  by rewrite <- app_assoc.
Qed.

(** X7. A number right behind a word character that is neither a Latin
    letter nor a digit (an Arabic letter, an underscore) is left as it is:
    no space is put in and the digits stay. *)
Theorem convert_number_after_other_letter (c : char) (run : str) :
  isword c = true → islatin c = false → isdigit c = false →
  Forall (λ c, isdigit c = true) run →
  convert_numbers_to_arabic_text (c :: run) = c :: run.
Proof using Type digit_is_word latin_not_digit.
  intros Hw Hl Hd Hrun. unfold convert_numbers_to_arabic_text. cbv zeta.
  rewrite sub_letter_digit_cons_other, sub_letter_digit_digits by done.
  rewrite sub_digit_letter_cons_other, sub_digit_letter_digits by done.
  rewrite sub_numbers_cons, match_number_other by done.
  rewrite <- (app_nil_r run) at 1.
  rewrite (sub_numbers_copy digit_is_word) by done.
  simp sub_numbers. by rewrite app_nil_r.
Qed.

End MoreTables.

(** * Further properties of [generate_multistyle_speech] *)

(** X8. With fewer than 299 values behind the generation text, the model
    choice or the silence flag is missing: [generate_multistyle_speech]
    raises [IndexError] before it parses or synthesizes anything. *)
Theorem generate_multistyle_speech_short_args regular_audio regular_ref_text
    gen_text (args : list value) s :
  (length args < 299)%nat →
  generate_multistyle_speech regular_audio regular_ref_text gen_text args s
  = (Raise IndexError, s).
Proof.
  intros Hlen. unfold generate_multistyle_speech. cbv zeta.
  change (max_speech_types - 1)%nat with 99%nat.
  change (3 * 99 + 1)%nat with 298%nat. change (3 * 99)%nat with 297%nat.
  unfold index. destruct (args !! 297%nat) as [mc|] eqn:E297; [|done].
  rewrite (lookup_ge_None_2 args 298) by lia. done.
Qed.

(** X9. When the text has no segment (it is blank, or holds only tags),
    nothing is synthesized: the only call is the warning, and [None] is
    returned. *)
Theorem generate_multistyle_speech_nothing regular_audio regular_ref_text
    gen_text args model_choice remove_silence s :
  args !! 297%nat = Some model_choice →
  args !! 298%nat = Some remove_silence →
  parse_speechtypes_text gen_text = [] →
  ∃ s',
    generate_multistyle_speech regular_audio regular_ref_text gen_text args s
      = (Ok None, s') ∧
    warnings (calls_since s s') = [no_audio_warning] ∧
    length (calls_since s s') = 1%nat ∧
    heap s' = heap s.
Proof.
  intros Hmc Hrs Hparse.
  destruct (generate_multistyle_speech_run regular_audio regular_ref_text
              gen_text args model_choice remove_silence s Hmc Hrs)
    as (regular & _ & ->).
  rewrite Hparse. unfold synthesize_segments. cbn [for_each].
  unfold bind, ret. cbn [last]. rewrite ext_run.
  eexists. split; [reflexivity|].
  erewrite calls_since_app by reflexivity. done.
Qed.

(** X10. What is looked up in the dictionary of speech types: for a name
    the audio and text of the last row that has this name and an audio, so
    that a later row overrides an earlier one, also the regular one, and a
    row without a name or without an audio does not count; "Regular"
    stands for the regular audio and text when no row is named so, and any
    other name is absent. *)
Theorem collect_speech_types_lookup regular_audio regular_ref_text
    names audios texts (k : value) :
  collect_speech_types regular_audio regular_ref_text names audios texts !! k =
  match last_row_named k (configured_rows names audios texts) with
  | Some row => Some (SpeechType row.2.1 row.2.2)
  | None =>
      if decide (k = VStr Regular)
      then Some (SpeechType regular_audio regular_ref_text)
      else None
  end.
Proof.
  unfold collect_speech_types, configured_rows.
  rewrite collect_speech_types_fold.
  destruct (last_row_named _ _); [done|].
  destruct (decide (k = VStr Regular)) as [->|Hne].
  - by rewrite lookup_singleton_eq.
  - by rewrite lookup_singleton_ne.
Qed.

(** X11. A segment whose style is a configured speech type is synthesized
    with the reference audio and text of that speech type. *)
Theorem configured_style_is_used regular_audio regular_ref_text
    gen_text args model_choice remove_silence s :
  args !! 297%nat = Some model_choice →
  args !! 298%nat = Some remove_silence →
  ∃ r s',
    generate_multistyle_speech regular_audio regular_ref_text gen_text args s
      = (Ok r, s') ∧
    ∀ i seg ty,
      parse_speechtypes_text gen_text !! i = Some seg →
      speech_types_of regular_audio regular_ref_text args !! VStr (style seg)
        = Some ty →
      references_used (calls_since s s') !! i = Some (audio ty, ref_text ty).
Proof.
  intros Hmc Hrs.
  destruct (generate_multistyle_speech_run regular_audio regular_ref_text
              gen_text args model_choice remove_silence s Hmc Hrs)
    as (regular & Hreg & Hrun).
  destruct (for_each_infer_trace
              (speech_types_of regular_audio regular_ref_text args) regular
              model_choice remove_silence (parse_speechtypes_text gen_text) s)
    as (outs & s1 & new & Hfor & Hlog & Hrefs & _).
  unfold synthesize_segments in Hrun. unfold bind at 1 in Hrun.
  rewrite Hfor in Hrun.
  assert (∃ r s' extra,
            generate_multistyle_speech regular_audio regular_ref_text
              gen_text args s = (Ok r, s') ∧
            log s' = log s ++ new ++ extra ∧ references_used extra = [])
    as (r & s' & extra & Hgen & Hlog' & Hex).
  { destruct (last outs) as [[sr w]|].
    - exists (Some (sr, concat (map snd outs))), s1, [].
      by rewrite app_nil_r.
    - unfold bind, ret in Hrun. rewrite ext_run in Hrun.
      eexists _, _, [_]. split; [exact Hrun|]. cbn [log].
      rewrite Hlog, <- app_assoc. done. }
  exists r, s'. split; [done|].
  rewrite (calls_since_app _ _ _ Hlog').
  unfold references_used in *. rewrite omap_app, Hex, app_nil_r, Hrefs.
  intros i seg ty Hi Hty. rewrite list_lookup_fmap, Hi.
  cbn [fmap option_fmap option_map].
  unfold chosen_speech_type. by rewrite Hty.
Qed.

(** X12. What a click on the generate button hands over is shifted by one
    against what the handler takes it for, as [speech_type_names] holds the
    regular name box too: the 99 names the handler reads are the regular
    name and the names of rows 1 to 98, the audios are the name of row 99
    and the audios of rows 1 to 98, the reference texts are the audio of
    row 99 and the texts of rows 1 to 98; the model choice it reads is the
    reference text of row 99 and the silence flag it reads is the model
    choice. *)
Theorem on_generate_click_shifted regular_name
    (name_inputs audio_inputs ref_text_inputs : list value)
    model_choice remove_silence :
  length name_inputs = 99%nat → length audio_inputs = 99%nat →
  length ref_text_inputs = 99%nat →
  let args := speech_type_names regular_name name_inputs ++ audio_inputs
                ++ ref_text_inputs ++ [model_choice; remove_silence] in
  slice args 0 99 = regular_name :: take 98 name_inputs ∧
  slice args 99 198 = drop 98 name_inputs ++ take 98 audio_inputs ∧
  slice args 198 297 = drop 98 audio_inputs ++ take 98 ref_text_inputs ∧
  args !! 297%nat = ref_text_inputs !! 98%nat ∧
  args !! 298%nat = Some model_choice.
Proof.
  intros Hn Ha Ht args.
  destruct (on_generate_click_arguments regular_name name_inputs audio_inputs
              ref_text_inputs model_choice remove_silence Hn Ha Ht)
    as (H297 & _ & H298).
  split; [|split; [|split; [|by split]]].
  - unfold args, speech_type_names, slice. cbn [List.app].
    change (99 - 0)%nat with 99%nat. cbn [firstn skipn]. f_equal.
    rewrite take_app_le by lia. done.
  - unfold args, speech_type_names, slice. cbn [List.app].
    change (198 - 99)%nat with 99%nat. cbn [skipn].
    rewrite drop_app_le by lia.
    rewrite take_app_ge by (rewrite length_drop; lia).
    rewrite length_drop, Hn. change (99 - (99 - 98))%nat with 98%nat.
    f_equal. rewrite take_app_le by lia. done.
  - unfold args, speech_type_names, slice. cbn [List.app].
    change (297 - 198)%nat with 99%nat. cbn [skipn].
    rewrite drop_app_ge by lia. rewrite Hn.
    change (197 - 99)%nat with 98%nat.
    rewrite drop_app_le by lia.
    rewrite take_app_ge by (rewrite length_drop; lia).
    rewrite length_drop, Ha. change (99 - (99 - 98))%nat with 98%nat.
    f_equal. rewrite take_app_le by lia. done.
Qed.

Lemma infer_calls_silence ref_audio_orig ref_text gen_text remove_silence
    cross_fade_duration speed show_info w :
  length (silence_removals
            (infer_calls ref_audio_orig ref_text gen_text remove_silence
               cross_fade_duration speed show_info w).1.1) =
  if truthy remove_silence then 1%nat else 0%nat.
Proof. unfold infer_calls. by destruct (truthy remove_silence). Qed.

Lemma for_each_silence_trace (speech_types : gmap value speech_type) regular
    model_choice remove_silence segments s :
  ∃ outs s' new,
    for_each
      (synthesize_segment speech_types regular model_choice remove_silence)
      segments s = (Ok outs, s') ∧
    log s' = log s ++ new ∧
    length (silence_removals new) =
      if truthy remove_silence then length segments else 0%nat.
Proof.
  revert s. induction segments as [|seg segments IH]; intros s.
  - exists [], s, []. rewrite app_nil_r. by destruct (truthy remove_silence).
  - cbn [for_each]. unfold synthesize_segment at 1. cbv zeta.
    unfold bind at 1. unfold bind at 1.
    rewrite infer_run. cbv zeta. unfold ret at 1.
    set (r := infer_calls _ _ _ _ _ _ _ _).
    pose proof (infer_calls_silence
                  (audio (chosen_speech_type speech_types regular (style seg)))
                  (ref_text (chosen_speech_type speech_types regular (style seg)))
                  (text seg) remove_silence 0 1 py_print (world s)) as Hsil.
    fold r in Hsil.
    destruct (IH (State r.1.2 (log s ++ r.1.1) (heap s)))
      as (outs & s' & new & Hrun & Hlog & Hnew).
    unfold bind at 1. rewrite Hrun. unfold ret.
    exists (r.2.1 :: outs), s', (r.1.1 ++ new).
    split; [done|]. split.
    { rewrite Hlog. cbn [log]. by rewrite app_assoc. }
    unfold silence_removals in *. rewrite omap_app, length_app, Hsil, Hnew.
    by destruct (truthy remove_silence).
Qed.

(** X13. In the running page the silence checkbox of the multi-style tab
    has no effect: the handler reads the model choice where it expects the
    flag, and as the model choice is a string that is not empty, silence is
    removed from every segment, whatever the checkbox says. *)
Theorem on_generate_click_always_removes_silence regular_audio regular_ref_text
    gen_text regular_name (name_inputs audio_inputs ref_text_inputs : list value)
    model_choice remove_silence s :
  length name_inputs = 99%nat → length audio_inputs = 99%nat →
  length ref_text_inputs = 99%nat →
  truthy model_choice = true →
  ∃ r s',
    on_generate_click regular_audio regular_ref_text gen_text regular_name
      name_inputs audio_inputs ref_text_inputs model_choice remove_silence s
      = (Ok r, s') ∧
    length (silence_removals (calls_since s s')) =
      length (parse_speechtypes_text gen_text).
Proof.
  intros Hn Ha Ht Hmc. unfold on_generate_click.
  destruct (on_generate_click_arguments regular_name name_inputs audio_inputs
              ref_text_inputs model_choice remove_silence Hn Ha Ht)
    as (H297 & [last_text Hlast] & H298).
  cbv zeta in H297, H298. rewrite Hlast in H297.
  set (args := speech_type_names regular_name name_inputs ++ audio_inputs
                 ++ ref_text_inputs ++ [model_choice; remove_silence]) in *.
  destruct (generate_multistyle_speech_run regular_audio regular_ref_text
              gen_text args last_text model_choice s H297 H298)
    as (regular & Hreg & Hrun).
  destruct (for_each_silence_trace
              (speech_types_of regular_audio regular_ref_text args) regular
              last_text model_choice (parse_speechtypes_text gen_text) s)
    as (outs & s1 & new & Hfor & Hlog & Hsil).
  rewrite Hmc in Hsil.
  unfold synthesize_segments in Hrun. unfold bind at 1 in Hrun.
  rewrite Hfor in Hrun. rewrite Hrun.
  destruct (last outs) as [[sr w]|].
  - eexists _, _. split; [reflexivity|].
    by rewrite (calls_since_app _ _ _ Hlog).
  - unfold bind, ret. rewrite ext_run.
    eexists _, _. split; [reflexivity|].
    erewrite calls_since_app; [|cbn [log]; rewrite Hlog, <- app_assoc; done].
    unfold silence_removals in *. rewrite omap_app, length_app, Hsil.
    cbn. lia.
Qed.


(** * Further properties of the chat tab *)

(** ** [generate_response] *)

(** X17. [generate_response] decodes only what the model adds to the
    prompt: when the model answers the prompt's token ids followed by new
    ones, [batch_decode] gets the new ones alone, and its first string is
    the reply.  The four library calls are made in this order, and the
    lists are left as they are. *)
Theorem generate_response_decodes_continuation messages s
    text w1 input_ids w2 new w3 reply rest w4 :
  answer _ (ApplyChatTemplate (heap s !!! messages)) (world s) = (text, w1) →
  answer _ (Tokenizer [text]) w1 = ([input_ids], w2) →
  answer _ (ModelGenerate [input_ids] 512 (7 # 10) (95 # 100)) w2 =
    ([input_ids ++ new], w3) →
  answer _ (BatchDecode [new]) w3 = (reply :: rest, w4) →
  generate_response messages s =
  (Ok reply,
   State w4
     (log s ++
      [Called (ApplyChatTemplate (heap s !!! messages)) text;
       Called (Tokenizer [text]) [input_ids];
       Called (ModelGenerate [input_ids] 512 (7 # 10) (95 # 100))
         [input_ids ++ new];
       Called (BatchDecode [new]) (reply :: rest)])
     (heap s)).
Proof.
  intros E1 E2 E3 E4.
  unfold generate_response, list_read, index, bind, ret.
  rewrite ext_run, E1. cbn [fst snd world log heap].
  rewrite ext_run. cbn [world]. rewrite E2. cbn [fst snd world log heap].
  rewrite ext_run. cbn [world]. rewrite E3.
  cbn [fst snd world log heap zip_with].
  rewrite drop_app_length.
  rewrite ext_run. cbn [world]. rewrite E4.
  cbn [fst snd world log heap lookup list_lookup].
  by rewrite <- !app_assoc.
Qed.

(** ** [process_audio_input] *)

(** X18. With a recording, the text of the box is not looked at before the
    recording is transcribed; when the transcription is blank the two
    lists are returned as they are, the chat model is not called, and the
    transcription is the only call made. *)
Theorem process_audio_input_blank_transcription audio_path text history
    conv_state s :
  let pre := PreprocessRefAudioText audio_path (VStr text) None in
  truthy audio_path = true →
  nonempty (strip (answer _ pre (world s)).1.2) = false →
  ∃ s',
    process_audio_input audio_path text history conv_state s =
      (Ok (history, conv_state, []), s') ∧
    heap s' = heap s ∧
    calls_since s s' = [Called pre (answer _ pre (world s)).1].
Proof.
  intros pre Ha Hblank. unfold process_audio_input. rewrite Ha.
  cbn [negb andb]. unfold bind at 1. unfold bind at 1.
  rewrite ext_run. fold pre. unfold ret at 1. cbn [fst snd].
  rewrite Hblank. cbn [negb]. unfold ret.
  eexists. split; [reflexivity|]. split; [done|].
  by apply calls_since_app.
Qed.

(** The run of [process_audio_input] up to the chat model's reply. *)
Lemma process_audio_input_to_reply audio_path text history conv_state s
    message s0 :
  history ≠ conv_state →
  user_message audio_path text s = (Ok message, s0) →
  nonempty (strip message) = true →
  process_audio_input audio_path text history conv_state s =
  (let* response := generate_response conv_state in
   let* _ := list_append conv_state (Message role_assistant response) in
   let* _ := list_set_last history (Turn message (Some response)) in
   ret (history, conv_state, []))
    (with_user_message history conv_state message s0) ∧
  heap s0 = heap s.
Proof.
  intros Hne Hmsg Hnb.
  pose proof (user_message_heap _ _ _ _ _ Hmsg) as Hh0. split; [|done].
  unfold process_audio_input.
  assert (negb (truthy audio_path) && negb (nonempty (strip text)) = false)
    as ->.
  { destruct (truthy audio_path) eqn:Ha; [done|].
    unfold user_message in Hmsg. rewrite Ha in Hmsg.
    injection Hmsg as -> _. by rewrite Hnb. }
  fold (user_message audio_path text).
  rewrite (bind_Ok _ _ _ _ _ Hmsg), Hnb. cbn [negb].
  unfold bind at 1. unfold list_append at 1. cbn [world log heap].
  unfold bind at 1. unfold list_append at 1. cbn [world log heap].
  by rewrite lookup_total_insert_ne by done.
Qed.

(** X19. When the chat model's reply cannot be taken
    ([generate_response] raises), [process_audio_input] raises the same
    error, and the user's message stays behind in both lists: as the last
    message of the conversation state and, in the history, as a pair
    without a reply. *)
Theorem process_audio_input_reply_fails audio_path text history conv_state s
    message s0 e s1 :
  history ≠ conv_state →
  user_message audio_path text s = (Ok message, s0) →
  nonempty (strip message) = true →
  generate_response conv_state
    (with_user_message history conv_state message s0) = (Raise e, s1) →
  process_audio_input audio_path text history conv_state s = (Raise e, s1) ∧
  heap s1 !!! conv_state =
    heap s !!! conv_state ++ [Message role_user message] ∧
  heap s1 !!! history = heap s !!! history ++ [Turn message None].
Proof.
  intros Hne Hmsg Hnb Hgen.
  destruct (process_audio_input_to_reply _ _ _ _ _ _ _ Hne Hmsg Hnb)
    as [-> Hh0].
  pose proof (generate_response_heap _ _ _ _ Hgen) as Hh1.
  rewrite (bind_Raise _ _ _ _ _ Hgen). split; [done|].
  rewrite Hh1. unfold with_user_message. cbn [heap]. rewrite Hh0.
  rewrite lookup_total_insert_ne by done.
  by rewrite !lookup_total_insert_eq.
Qed.

(** ** [generate_audio_response] *)

(** X20. [generate_audio_response] returns [None] and calls nothing when
    the history is empty, when there is no reference audio, or when the
    last pair of the history has no reply or an empty one. *)
Theorem generate_audio_response_nothing_to_say history ref_audio ref_text
    model remove_silence s :
  heap s !!! history = [] ∨
  truthy ref_audio = false ∨
  (∃ h user reply,
     heap s !!! history = h ++ [Turn user reply] ∧
     (reply = None ∨ reply = Some [])) →
  generate_audio_response history ref_audio ref_text model remove_silence s =
  (Ok None, s).
Proof.
  intros H. unfold generate_audio_response, list_read.
  unfold bind at 1.
  destruct H as [->|[Ha|(h & user & reply & -> & Hr)]].
  - by rewrite bool_decide_false by naive_solver.
  - rewrite Ha. cbn [negb]. by rewrite orb_true_r.
  - rewrite bool_decide_true by (by destruct h).
    cbn [negb orb]. destruct (truthy ref_audio); [|done]. cbn [negb].
    unfold bind at 1, index.
    rewrite length_app. cbn [length].
    replace (length h + 1 - 1)%nat with (length h) by lia.
    rewrite list_lookup_middle by done. unfold ret at 1.
    cbn [unpack_pair]. by destruct Hr as [->| ->].
Qed.

(** A run of [generate_audio_response] on a history whose last pair has a
    reply. *)
Lemma generate_audio_response_run history ref_audio ref_text
    model remove_silence s h user reply :
  heap s !!! history = h ++ [Turn user (Some reply)] →
  truthy ref_audio = true →
  nonempty reply = true →
  ∃ audio_result s',
    generate_audio_response history ref_audio ref_text model remove_silence s =
      (Ok (Some audio_result), s') ∧
    (∃ path,
       infer ref_audio ref_text reply model remove_silence (15 # 100) 1
         py_print s = (Ok (audio_result, path), s')) ∧
    references_used (calls_since s s') = [(ref_audio, ref_text)] ∧
    infer_process_texts (calls_since s s') = [normalized reply] ∧
    heap s' = heap s.
Proof.
  intros Hh Ha Hr. unfold generate_audio_response, list_read.
  unfold bind at 1. rewrite Hh, Ha.
  rewrite bool_decide_true by (by destruct h). cbn [negb orb].
  unfold bind at 1, index.
  rewrite length_app. cbn [length].
  replace (length h + 1 - 1)%nat with (length h) by lia.
  rewrite list_lookup_middle by done. unfold ret at 1.
  cbn [unpack_pair]. rewrite Hr. cbn [negb].
  unfold bind at 1. rewrite infer_run. cbv zeta.
  set (r := infer_calls _ _ _ _ _ _ _ _).
  destruct (infer_calls_observed ref_audio ref_text reply remove_silence
              (15 # 100) 1 py_print (world s)) as [Href Htext].
  fold r in Href, Htext.
  destruct r as [[calls w] [audio_result path]] eqn:E.
  cbn [fst snd] in *. unfold ret.
  eexists _, _. split; [reflexivity|]. split; [by eexists|].
  erewrite calls_since_app by reflexivity. done.
Qed.

(** X21. Otherwise [generate_audio_response] speaks the reply of the last
    pair of the history: [infer] is run once on that reply, with the
    reference it was given, so [infer_process] gets the normalized reply;
    its audio is returned and the lists are left as they are. *)
Theorem generate_audio_response_speaks_last_reply history ref_audio ref_text
    model remove_silence s h user reply :
  heap s !!! history = h ++ [Turn user (Some reply)] →
  truthy ref_audio = true →
  nonempty reply = true →
  ∃ audio_result s',
    generate_audio_response history ref_audio ref_text model remove_silence s =
      (Ok (Some audio_result), s') ∧
    (∃ path,
       infer ref_audio ref_text reply model remove_silence (15 # 100) 1
         py_print s = (Ok (audio_result, path), s')) ∧
    references_used (calls_since s s') = [(ref_audio, ref_text)] ∧
    infer_process_texts (calls_since s s') = [normalized reply] ∧
    heap s' = heap s.
Proof. apply generate_audio_response_run. Qed.

(** X22. Composition: after [process_audio_input] has taken a message and
    got a reply that is not empty, [generate_audio_response] on the same
    history, with a reference audio, speaks exactly this reply. *)
Theorem chat_turn_speaks_reply audio_path text history conv_state s
    message s0 response s1 ref_audio ref_text model remove_silence :
  history ≠ conv_state →
  user_message audio_path text s = (Ok message, s0) →
  nonempty (strip message) = true →
  generate_response conv_state
    (with_user_message history conv_state message s0) = (Ok response, s1) →
  nonempty response = true →
  truthy ref_audio = true →
  ∃ s' audio_result s'',
    process_audio_input audio_path text history conv_state s =
      (Ok (history, conv_state, []), s') ∧
    generate_audio_response history ref_audio ref_text model remove_silence s' =
      (Ok (Some audio_result), s'') ∧
    references_used (calls_since s' s'') = [(ref_audio, ref_text)] ∧
    infer_process_texts (calls_since s' s'') = [normalized response].
Proof.
  intros Hne Hmsg Hnb Hgen Hresp Ha.
  destruct (process_audio_input_to_reply _ _ _ _ _ _ _ Hne Hmsg Hnb)
    as [-> Hh0].
  pose proof (generate_response_heap _ _ _ _ Hgen) as Hh1.
  unfold with_user_message in Hh1. cbn [heap] in Hh1.
  rewrite (bind_Ok _ _ _ _ _ Hgen).
  unfold bind at 1. unfold list_append at 1.
  unfold bind at 1. unfold list_set_last, ret. cbn [world log heap].
  rewrite Hh1. rewrite lookup_total_insert_ne by done.
  rewrite !lookup_total_insert_eq.
  destruct (heap s0 !!! history ++ [Turn message None]) as [|x xs] eqn:E.
  { by apply app_eq_nil in E as [_ ?]. }
  rewrite <- E. rewrite removelast_last.
  match goal with
  | |- context [(Ok (history, conv_state, []), ?st)] => set (s' := st)
  end.
  destruct (generate_audio_response_run history ref_audio ref_text model
              remove_silence s' (heap s0 !!! history) message response)
    as (r & s'' & Hrun & _ & Href & Htext & _); [|done|done|].
  { unfold s'. cbn [heap]. by rewrite lookup_total_insert_eq. }
  by exists s', r, s''.
Qed.

End App.

(** ** [validate_speech_types] *)

Lemma available_fold (names : list value) (init : gset value) :
  fold_left
    (λ available name_input,
       if truthy name_input then available ∪ {[ name_input ]} else available)
    names init
  = init ∪ list_to_set (List.filter truthy names).
Proof.
  revert init. induction names as [|n names IH]; intros init.
  - cbn. set_solver.
  - cbn [fold_left List.filter]. rewrite IH.
    destruct (truthy n); [|done]. cbn [list_to_set]. set_solver.
Qed.

Lemma filter_truthy_last (name_inputs : list value) v :
  length name_inputs = 99%nat → name_inputs !! 98%nat = Some v →
  truthy v = false →
  List.filter truthy (take 98 name_inputs) = List.filter truthy name_inputs.
Proof.
  intros Hlen Hv Hf.
  rewrite <- (take_drop 98 name_inputs) at 2.
  rewrite List.filter_app.
  assert (drop 98 name_inputs = [v]) as ->.
  { rewrite <- (take_drop 98 name_inputs) in Hv.
    rewrite lookup_app_r in Hv by (rewrite length_take; lia).
    rewrite length_take in Hv.
    replace (98 - 98 `min` length name_inputs)%nat with 0%nat in Hv by lia.
    pose proof (length_drop name_inputs 98) as Hd.
    destruct (drop 98 name_inputs) as [|x [|y l]]; simplify_eq/=; [done|lia]. }
  cbn. rewrite Hf. by rewrite app_nil_r.
Qed.

(** What the handler computes, whatever its arguments. *)
Lemma validate_speech_types_decides gen_text regular_name args :
  validate_speech_types gen_text regular_name args =
  gr_update_interactive
    (bool_decide
       (Forall (λ seg, VStr (style seg) ∈
                  configured_names regular_name (take 99 args))
          (parse_speechtypes_text gen_text))).
Proof.
  unfold validate_speech_types, configured_names. cbv zeta.
  change (max_speech_types - 1)%nat with 99%nat.
  unfold slice. rewrite drop_0, Nat.sub_0_r, available_fold.
  set (segs := parse_speechtypes_text gen_text).
  set (avail := (if truthy regular_name then {[regular_name]} else ∅)
                  ∪ list_to_set (List.filter truthy (take 99 args))).
  assert (avail = list_to_set (List.filter truthy (regular_name :: take 99 args)))
    as Havail.
  { unfold avail. cbn [List.filter].
    destruct (truthy regular_name); cbn [list_to_set]; set_solver. }
  rewrite <- Havail. clearbody avail. clear Havail.
  destruct (decide (Forall (λ seg, VStr (style seg) ∈ avail) segs)) as [Hall|Hex].
  - rewrite (bool_decide_true (Forall _ _)) by done.
    rewrite bool_decide_false; [done|]. intros Hne. apply Hne.
    apply set_eq. intros x. rewrite elem_of_difference, elem_of_list_to_set.
    split; [|set_solver]. intros [Hin Hnot]. destruct Hnot.
    apply list_elem_of_In, in_map_iff in Hin as (seg & <- & Hseg).
    rewrite Forall_forall in Hall. by apply Hall, list_elem_of_In.
  - rewrite (bool_decide_false (Forall _ _)) by done.
    rewrite bool_decide_true; [done|]. intros Hempty.
    apply Hex, Forall_forall. intros seg Hseg.
    destruct (decide (VStr (style seg) ∈ avail)) as [|Hnot]; [done|].
    assert (VStr (style seg) ∈
              (list_to_set (map (λ segment, VStr (style segment)) segs)
                 : gset value) ∖ avail) as Hin.
    { apply elem_of_difference. split; [|done].
      apply elem_of_list_to_set, list_elem_of_In, in_map_iff.
      exists seg. split; [done|]. by apply list_elem_of_In. }
    rewrite Hempty in Hin. set_solver.
Qed.

(** C8 (amended). When the generation text changes and the last of the 99
    additional name boxes is empty, the generate button is disabled if some
    style name parsed from the text is not among the configured names, and
    enabled otherwise; the configured names are the regular name and the
    names of the additional rows, those that are not empty. *)
Theorem validate_speech_types_spec gen_text regular_name name_inputs v :
  length name_inputs = 99%nat →
  name_inputs !! 98%nat = Some v → truthy v = false →
  on_gen_text_change gen_text regular_name name_inputs =
  gr_update_interactive
    (bool_decide
       (Forall (λ seg, VStr (style seg) ∈
                  configured_names regular_name name_inputs)
          (parse_speechtypes_text gen_text))).
Proof.
  intros Hlen Hv Hf. unfold on_gen_text_change, speech_type_names.
  rewrite validate_speech_types_decides.
  change (take 99 (regular_name :: name_inputs))
    with (regular_name :: take 98 name_inputs).
  assert (configured_names regular_name (regular_name :: take 98 name_inputs)
          = configured_names regular_name name_inputs) as ->; [|done].
  unfold configured_names. cbn [List.filter].
  rewrite (filter_truthy_last _ _ Hlen Hv Hf).
  destruct (truthy regular_name); cbn [list_to_set]; set_solver.
Qed.


(** ** The speech-type rows *)

Lemma set_outputs_rows_lookup (f : nat → update) (rows : list bool) i :
  length rows = 99%nat →
  zip_with apply_visible (map f (seq 0 99)) rows !! i =
  (λ b, apply_visible (f i) b) <$> rows !! i.
Proof.
  intros Hlen. rewrite lookup_zip_with.
  change (map f (seq 0 99)) with (f <$> seq 0 99).
  rewrite list_lookup_fmap.
  destruct (decide (i < 99)%nat) as [Hi|Hi].
  - rewrite lookup_seq_lt by done. cbn. by destruct (rows !! i).
  - rewrite lookup_seq_ge by lia. cbn. by rewrite lookup_ge_None_2 by lia.
Qed.




Lemma on_click_add_below ui :
  rows_ok ui → (speech_type_count ui < 99)%Z →
  speech_type_count (on_click ui Add) = (speech_type_count ui + 1)%Z ∧
  ∀ i, speech_type_rows (on_click ui Add) !! i =
       (λ visible, if (Z.of_nat i <? speech_type_count ui + 1)%Z
                   then true else visible) <$> speech_type_rows ui !! i.
Proof.
  intros [Hc Hlen] Hlt. unfold on_click, set_outputs, add_speech_type_fn.
  change (Z.of_nat max_speech_types - 1)%Z with 99%Z.
  change (max_speech_types - 1)%nat with 99%nat.
  destruct (Z.ltb_spec (speech_type_count ui) 99); [|lia].
  cbn [fst snd speech_type_count speech_type_rows]. split; [done|].
  intros i. rewrite set_outputs_rows_lookup by done.
  destruct (speech_type_rows ui !! i); [|done]. cbn.
  by destruct (Z.of_nat i <? speech_type_count ui + 1)%Z.
Qed.

Lemma on_click_add_full ui :
  rows_ok ui → (99 ≤ speech_type_count ui)%Z → on_click ui Add = ui.
Proof.
  intros [Hc Hlen] Hge. unfold on_click, set_outputs, add_speech_type_fn.
  change (Z.of_nat max_speech_types - 1)%Z with 99%Z.
  change (max_speech_types - 1)%nat with 99%nat.
  destruct (Z.ltb_spec (speech_type_count ui) 99); [lia|].
  cbn [fst snd]. destruct ui as [count rows]. f_equal.
  cbn [speech_type_rows] in *. apply list_eq. intros i.
  rewrite set_outputs_rows_lookup by done. by destruct (rows !! i).
Qed.

Lemma on_click_delete ui index :
  rows_ok ui →
  speech_type_count (on_click ui (Delete index)) =
    Z.max 0 (speech_type_count ui - 1) ∧
  ∀ i, speech_type_rows (on_click ui (Delete index)) !! i =
       (λ visible, if decide (i = index) then false else visible)
         <$> speech_type_rows ui !! i.
Proof.
  intros [Hc Hlen]. unfold on_click, set_outputs, make_delete_speech_type_fn.
  cbv zeta. change (max_speech_types - 1)%nat with 99%nat.
  cbn [fst snd speech_type_count speech_type_rows]. split; [done|].
  intros i. rewrite set_outputs_rows_lookup by done.
  destruct (speech_type_rows ui !! i); [|done]. cbn.
  destruct (Nat.eqb_spec i index); [by rewrite decide_True|by rewrite decide_False].
Qed.

Lemma filter_id_replicate n m :
  length (List.filter id (replicate n true ++ replicate m false)) = n.
Proof.
  rewrite List.filter_app, length_app.
  assert (List.filter id (replicate m false) = []) as ->.
  { induction m; [done|]. by cbn. }
  assert (List.filter id (replicate n true) = replicate n true) as ->.
  { induction n as [|n IH]; [done|]. cbn. by rewrite IH. }
  rewrite length_replicate. cbn. lia.
Qed.

(** From rows shown in order, [Add] shows exactly the next one. *)
Lemma on_click_add_next ui n :
  rows_ok ui → speech_type_count ui = Z.of_nat n → (n < 99)%nat →
  first_rows_visible n ui →
  first_rows_visible (S n) (on_click ui Add) ∧
  visible_count (on_click ui Add) = S (visible_count ui).
Proof.
  intros Hok Hn Hlt Hrows.
  destruct (on_click_add_below ui Hok ltac:(lia)) as [_ Hadd].
  assert (first_rows_visible (S n) (on_click ui Add)) as Hnext.
  { unfold first_rows_visible in *.
    change (max_speech_types - 1)%nat with 99%nat in *.
    apply list_eq. intros i. rewrite Hadd, Hrows, Hn.
    destruct (decide (i < n)%nat) as [Hi|Hi].
    - rewrite !lookup_app_l by (rewrite length_replicate; lia).
      rewrite !lookup_replicate_2 by lia. cbn.
      by destruct (Z.ltb_spec (Z.of_nat i) (Z.of_nat n + 1)).
    - rewrite lookup_app_r by (rewrite length_replicate; lia).
      rewrite length_replicate.
      destruct (decide (i = n)) as [->|Hin].
      + rewrite Nat.sub_diag, lookup_replicate_2 by lia.
        rewrite lookup_app_l by (rewrite length_replicate; lia).
        rewrite lookup_replicate_2 by lia. cbn.
        destruct (Z.ltb_spec (Z.of_nat n) (Z.of_nat n + 1)); [done|lia].
      + rewrite lookup_app_r by (rewrite length_replicate; lia).
        rewrite length_replicate.
        destruct (decide (i < 99)%nat).
        * rewrite !lookup_replicate_2 by lia. cbn.
          destruct (Z.ltb_spec (Z.of_nat i) (Z.of_nat n + 1)); [lia|done].
        * rewrite !(proj1 (lookup_replicate_None _ _ _)) by lia. done. }
  split; [done|]. unfold visible_count.
  unfold first_rows_visible in *. rewrite Hnext, Hrows.
  by rewrite !filter_id_replicate.
Qed.



(** ** The tabs *)

(** C10. The application has exactly four tabs, in this order: the
    single-style synthesis [app_tts], the multi-style synthesis
    [app_multistyle], the voice chat [app_chat] and the credits
    [app_credits]. *)
Theorem app_has_four_tabs :
  length app = 4%nat ∧
  app.*2 = [app_tts; app_multistyle; app_chat; app_credits].
Proof. split; reflexivity. Qed.

(** * Further properties *)

(** ** The parser *)

(** The segments of a text, from any decomposition into chunks. *)
Lemma parse_of_Chunks s c0 l :
  Chunks s c0 l →
  parse_speechtypes_text s =
  labelled Regular c0 ++ flat_map (λ mc, labelled (strip mc.1) mc.2) l.
Proof.
  intros HC.
  destruct (split_marker_chunks s) as (c0' & l' & HC' & Htok).
  destruct (Chunks_unique _ _ _ _ _ HC HC') as [-> ->].
  unfold parse_speechtypes_text. cbv zeta. rewrite Htok.
  apply (parse_loop [] c0' l' [] Regular). done.
Qed.

Lemma no_marker_inside_plain c rest :
  LBRACE ∉ c → no_marker_inside c rest.
Proof.
  intros Hc a b -> Hb (m & r & Heq & _).
  destruct b as [|x b]; [done|]. injection Heq as -> _.
  apply Hc, elem_of_app. right. apply list_elem_of_here.
Qed.

Lemma no_marker_inside_unclosed c :
  RBRACE ∉ c → no_marker_inside c [].
Proof.
  intros Hc a b -> Hb (m & r & Heq & _). rewrite app_nil_r in Heq. subst b.
  apply Hc. rewrite !elem_of_app, !elem_of_cons, elem_of_app, elem_of_cons.
  tauto.
Qed.

Lemma Chunks_plain (gen_text : str) :
  LBRACE ∉ gen_text ∨ RBRACE ∉ gen_text → Chunks gen_text gen_text [].
Proof.
  intros H. constructor. destruct H as [H|H].
  - by apply no_marker_inside_plain.
  - by apply no_marker_inside_unclosed.
Qed.

(** X1. A text in which no brace opens, or in which no brace closes, is
    ordinary text: it gives one segment labelled "Regular" with the text
    stripped, or no segment when the text is blank. *)
Theorem parse_speechtypes_text_plain (gen_text : str) :
  LBRACE ∉ gen_text ∨ RBRACE ∉ gen_text →
  parse_speechtypes_text gen_text = labelled Regular gen_text.
Proof.
  intros H.
  rewrite (parse_of_Chunks gen_text gen_text []); [by rewrite app_nil_r|].
  by apply Chunks_plain.
Qed.

Lemma lstrip_app_last u c :
  isspace c = false → lstrip (u ++ [c]) = lstrip u ++ [c].
Proof.
  intros Hc. induction u as [|x u IH]; simpl; [by rewrite Hc|].
  by destruct (isspace x).
Qed.

Lemma lstrip_idemp s : lstrip (lstrip s) = lstrip s.
Proof.
  induction s as [|c s IH]; [done|]. simpl.
  destruct (isspace c) eqn:Hc; [done|]. simpl. by rewrite Hc.
Qed.

Lemma rstrip_cons c t :
  isspace c = false → rstrip (c :: t) = c :: rstrip t.
Proof.
  intros Hc. unfold rstrip. cbn [rev].
  by rewrite lstrip_app_last, rev_unit.
Qed.

(** What [strip] returns has no whitespace at either end. *)
Lemma lstrip_strip s : lstrip (strip s) = strip s.
Proof.
  unfold strip. destruct (lstrip s) as [|c t] eqn:E; [done|].
  assert (isspace c = false) as Hc.
  { induction s as [|x s IH]; [done|]. simpl in E.
    destruct (isspace x) eqn:Hx; [by apply IH|]. by injection E as <- _. }
  rewrite rstrip_cons by done. simpl. by rewrite Hc.
Qed.

Lemma rstrip_strip s : rstrip (strip s) = strip s.
Proof.
  unfold strip, rstrip. by rewrite rev_involutive, lstrip_idemp.
Qed.

Lemma strip_idemp s : strip (strip s) = strip s.
Proof.
  unfold strip at 1. by rewrite lstrip_strip, rstrip_strip.
Qed.

Lemma labelled_clean st c :
  strip st = st →
  Forall (λ seg, text seg ≠ [] ∧ strip (text seg) = text seg
                 ∧ strip (style seg) = style seg)
    (labelled st c).
Proof.
  intros Hst. unfold labelled.
  destruct (strip c) as [|x t] eqn:E; cbn [nonempty]; [constructor|].
  constructor; [|constructor]. cbn [text style].
  split; [done|]. split; [|done]. rewrite <- E. apply strip_idemp.
Qed.

(** X2. Every segment the parser returns has a text that is not empty and
    has no whitespace at either end, and a style with no whitespace at
    either end: stripping them again changes nothing. *)
Theorem parse_speechtypes_text_stripped (gen_text : str) :
  Forall (λ seg, text seg ≠ [] ∧ strip (text seg) = text seg
                 ∧ strip (style seg) = style seg)
    (parse_speechtypes_text gen_text).
Proof.
  destruct (split_marker_chunks gen_text) as (c0 & l & HC & _).
  rewrite (parse_of_Chunks _ _ _ HC).
  apply Forall_app. split.
  - apply labelled_clean. vm_compute. reflexivity.
  - clear HC. induction l as [|[m c] l IH]; [constructor|].
    cbn [flat_map]. apply Forall_app. split; [|done].
    apply labelled_clean, strip_idemp.
Qed.

(** *** Tags put in by the insert buttons *)

(** The text box after a click on an insert button (of the row [index],
    whose name box holds [name]) and after [typed] is typed behind the
    tag. *)
Definition insert_and_type (current_text : str)
    (step : nat * option str * str) : str :=
  upd_value (make_insert_speech_type_fn step.1.1 (Some current_text) step.1.2)
    ++ step.2.

(** The text box after a sequence of such steps. *)
Definition typed_script (start : str) (steps : list (nat * option str * str)) :
    str :=
  fold_left insert_and_type steps start.

(** The chunk a text ends with. *)
Definition last_chunk (c0 : str) (l : list (str * str)) : str :=
  match last l with Some mc => mc.2 | None => c0 end.

Lemma marker_at_app_inv y x :
  marker_at (y ++ x) → RBRACE ∈ y → marker_at y.
Proof.
  intros (m & rest & Heq & Hm) Hy.
  destruct y as [|h y']; [by apply not_elem_of_nil in Hy|].
  injection Heq as -> Heq.
  apply elem_of_cons in Hy as [Hy|Hy]; [done|].
  apply list_elem_of_split_l in Hy as (p & q & -> & Hp).
  rewrite <- app_assoc in Heq. cbn [List.app] in Heq.
  exists p, q. split; [done|].
  apply app_eq_inv in Heq as [(k & -> & Hk)|(k & -> & Hk)].
  - destruct k as [|z k]; [by rewrite app_nil_r in Hp |- *|].
    injection Hk as <- _. destruct Hp.
    apply elem_of_app. right. apply list_elem_of_here.
  - by apply not_elem_of_app in Hm as [? _].
Qed.

Lemma Chunks_snoc s c0 l m c :
  Chunks s c0 l → LBRACE ∉ last_chunk c0 l →
  RBRACE ∉ m → LF ∉ m → LBRACE ∉ c →
  Chunks (s ++ LBRACE :: m ++ RBRACE :: c) c0 (l ++ [(m, c)]).
Proof.
  intros HC. induction HC as [c1 Hc1|c1 m1 s1 c1' l1 Hc1 Hb Hn HC IH];
    intros Hlast Hm1 Hm2 Hc.
  - cbn [List.app]. constructor; [|done|done|].
    + by apply no_marker_inside_plain.
    + constructor. by apply no_marker_inside_plain.
  - rewrite <- app_assoc. cbn [List.app]. rewrite <- app_assoc.
    cbn [List.app]. constructor; [|done|done|].
    + intros a b Hab Hb' Hmark. apply (Hc1 a b Hab Hb').
      apply (marker_at_app_inv _ (LBRACE :: m ++ RBRACE :: c)).
      * repeat first [rewrite <- app_assoc | progress cbn [List.app]]. done.
      * rewrite elem_of_app, elem_of_cons, elem_of_app, elem_of_cons. tauto.
    + apply IH; [|done..].
      unfold last_chunk in *. destruct l1 as [|mc l1]; [done|].
      rewrite last_cons_cons in Hlast.
      destruct (last (mc :: l1)) eqn:E; [done|]. by apply last_None in E.
Qed.

Lemma last_chunk_snoc c0 l (mc : str * str) : last_chunk c0 (l ++ [mc]) = mc.2.
Proof. unfold last_chunk. by rewrite last_snoc. Qed.

(** X3. Tags put in with the insert buttons are read back by the parser:
    when the text box starts with text that has no opening brace, and every
    step inserts a tag whose name (or "Ninguno" for an empty name box) has
    no closing brace and no line feed and then types text with no opening
    brace, the parsed segments are the start text under "Regular" and,
    for every step in order, the typed text under the stripped name, blank
    texts left out. *)
Theorem insert_then_parse (start : str) (steps : list (nat * option str * str)) :
  LBRACE ∉ start →
  Forall (λ step, (RBRACE ∉ or_else step.1.2 str_Ninguno) ∧
                  (LF ∉ or_else step.1.2 str_Ninguno) ∧
                  (LBRACE ∉ step.2)) steps →
  parse_speechtypes_text (typed_script start steps) =
  labelled Regular start ++
  flat_map (λ step, labelled (strip (or_else step.1.2 str_Ninguno))
                      (SPACE :: step.2)) steps.
Proof.
  intros Hstart Hsteps.
  set (tag := λ step : nat * option str * str,
                (or_else step.1.2 str_Ninguno, SPACE :: step.2)).
  assert (Chunks (typed_script start steps) start (map tag steps) ∧
          LBRACE ∉ last_chunk start (map tag steps)) as [HC _].
  { unfold typed_script. revert Hsteps.
    induction steps as [|step steps IH] using rev_ind; intros Hsteps.
    - split; [|done]. constructor. by apply no_marker_inside_plain.
    - apply Forall_app in Hsteps as [Hsteps Hstep].
      apply Forall_singleton in Hstep as (Hb & Hn & Ht).
      destruct (IH Hsteps) as [HC Hlast].
      rewrite fold_left_app, map_app. cbn [fold_left map].
      rewrite last_chunk_snoc. split.
      + unfold insert_and_type at 1, make_insert_speech_type_fn.
        cbv zeta. cbn [upd_value]. unfold or_else at 1.
        assert (∀ t : str, (if nonempty t then t else []) = t) as ->
          by by intros [].
        rewrite <- !app_assoc. cbn [List.app].
        apply (Chunks_snoc _ _ _ (or_else step.1.2 str_Ninguno)
                 (SPACE :: step.2)); [done..|].
        rewrite not_elem_of_cons. by split.
      + unfold tag. cbn [snd]. rewrite not_elem_of_cons. by split. }
  rewrite (parse_of_Chunks _ _ _ HC). f_equal.
  clear. induction steps as [|step steps IH]; [done|].
  cbn [map flat_map]. by rewrite IH.
Qed.

(** ** The validation of the generation text *)

(** X14. For a text without tags (no brace opens, or no brace closes) the
    generate button is enabled when the text is blank or when "Regular" is
    among the names the handler reads, the regular name and the first 99
    values behind it, those that are not empty; otherwise it is disabled,
    as it is once the regular speech type is renamed and no other box
    holds "Regular". *)
Theorem validate_speech_types_plain (gen_text : str) regular_name args :
  LBRACE ∉ gen_text ∨ RBRACE ∉ gen_text →
  validate_speech_types gen_text regular_name args =
  gr_update_interactive
    (bool_decide (strip gen_text = [] ∨
                  VStr Regular ∈ configured_names regular_name (take 99 args))).
Proof.
  intros Hplain. rewrite validate_speech_types_decides. f_equal.
  rewrite (parse_of_Chunks gen_text gen_text [] (Chunks_plain _ Hplain)).
  cbn [flat_map]. rewrite app_nil_r.
  apply bool_decide_ext. unfold labelled.
  destruct (strip gen_text) as [|c t] eqn:E; cbn [nonempty].
  - split; [by left|]. intros _. constructor.
  - rewrite Forall_singleton. cbn [style]. split; [by right|].
    by intros [?|?].
Qed.

(** ** The speech-type rows *)

(** The rows after [n] clicks on the add button. *)
Lemma run_clicks_adds (n : nat) :
  run_clicks (replicate n Add) =
  RowsState (Z.of_nat (n `min` 99))
    (replicate (n `min` 99) true ++ replicate (99 - n `min` 99) false).
Proof.
  induction n as [|n IH]; [done|].
  rewrite replicate_S_end. unfold run_clicks in *.
  rewrite fold_left_app. cbn [fold_left]. rewrite IH.
  set (ui := RowsState _ _).
  assert (rows_ok ui) as Hok.
  { unfold ui. split; cbn [speech_type_count speech_type_rows]; [lia|].
    rewrite length_app, !length_replicate. lia. }
  destruct (decide (n < 99)%nat) as [Hlt|Hge].
  - destruct (on_click_add_below ui Hok) as [Hcount _];
      [unfold ui; cbn [speech_type_count]; lia|].
    destruct (on_click_add_next ui n Hok) as [Hrows _];
      [unfold ui; cbn [speech_type_count]; lia|done|..].
    { unfold first_rows_visible, ui. cbn [speech_type_rows].
      change (max_speech_types - 1)%nat with 99%nat.
      by replace (n `min` 99)%nat with n by lia. }
    unfold first_rows_visible in Hrows.
    change (max_speech_types - 1)%nat with 99%nat in Hrows.
    destruct (on_click ui Add) as [count rows].
    unfold ui in Hcount. cbn [speech_type_count speech_type_rows] in *.
    subst count rows.
    replace (S n `min` 99)%nat with (S n) by lia.
    replace (n `min` 99)%nat with n by lia. f_equal. lia.
  - rewrite on_click_add_full by (try done; unfold ui; cbn [speech_type_count]; lia).
    unfold ui. by replace (S n `min` 99)%nat with (n `min` 99)%nat by lia.
Qed.

(** X15. After [n] clicks on the add button, from the page as it is loaded,
    the counter is [n] and exactly the first [n] rows are visible, up to 99:
    from then on further clicks change nothing. *)
Theorem add_clicks_from_start (n : nat) :
  run_clicks (replicate n Add) =
  RowsState (Z.of_nat (n `min` 99))
    (replicate (n `min` 99) true ++ replicate (99 - n `min` 99) false).
Proof. apply run_clicks_adds. Qed.

(** X16. Adding a row and deleting that row again gives back the rows and
    the counter as they were, when rows were only added before. *)
Theorem add_then_delete_round_trip (n : nat) :
  (n < 99)%nat →
  run_clicks (replicate n Add ++ [Add; Delete n]) =
  run_clicks (replicate n Add).
Proof.
  intros Hlt. unfold run_clicks. rewrite fold_left_app.
  change (fold_left on_click [Add; Delete n] ?ui)
    with (on_click (on_click ui Add) (Delete n)).
  fold (run_clicks (replicate n Add)).
  pose proof (run_clicks_adds (S n)) as HS.
  rewrite replicate_S_end in HS. unfold run_clicks in HS.
  rewrite fold_left_app in HS. cbn [fold_left] in HS.
  fold (run_clicks (replicate n Add)) in HS. rewrite HS.
  rewrite run_clicks_adds.
  replace (S n `min` 99)%nat with (S n) by lia.
  replace (n `min` 99)%nat with n by lia.
  set (ui := RowsState (Z.of_nat (S n)) _).
  assert (rows_ok ui) as Hok.
  { unfold ui. split; cbn [speech_type_count speech_type_rows]; [lia|].
    rewrite length_app, !length_replicate. lia. }
  destruct (on_click_delete ui n Hok) as [Hcount Hrows].
  destruct (on_click ui (Delete n)) as [count rows].
  unfold ui in Hcount, Hrows. cbn [speech_type_count speech_type_rows] in *.
  subst count. f_equal; [lia|].
  apply list_eq. intros i. rewrite Hrows.
  destruct (decide (i = n)) as [->|Hne].
  - rewrite lookup_app_l by (rewrite length_replicate; lia).
    rewrite lookup_replicate_2 by lia.
    rewrite lookup_app_r by (rewrite length_replicate; lia).
    rewrite length_replicate, Nat.sub_diag, lookup_replicate_2 by lia. done.
  - destruct (decide (i < n)%nat).
    + rewrite !lookup_app_l by (rewrite length_replicate; lia).
      by rewrite !lookup_replicate_2 by lia.
    + rewrite !lookup_app_r by (rewrite length_replicate; lia).
      rewrite !length_replicate.
      destruct (decide (i < 99)%nat).
      * by rewrite !lookup_replicate_2 by lia.
      * by rewrite !(proj1 (lookup_replicate_None _ _ _)) by lia.
Qed.

(** * Closed instances

    A small outside world on which the statements above are run: ASCII
    digits and letters, an oracle for [num2words] that knows one number,
    and libraries that answer every call with a fixed value. *)

Module Demo.

Definition isdigit (c : char) : bool := (48 <=? c) && (c <=? 57).
Definition isword (c : char) : bool := isdigit c || islatin c || (c =? 95).
Definition digit_value (c : char) : N := c - 48.

(** "سبعة" for 7 and "رقم" for any other number. *)
Definition num2words (n : N) : str :=
  if n =? 7 then [1587; 1576; 1593; 1577] else [1585; 1602; 1605].

Definition lower (s : str) : str :=
  map (λ c, if (65 <=? c) && (c <=? 90) then c + 32 else c) s.

Definition squeeze_cpu_numpy (t : list Z) : list Z := t.

(** The world is the number of temporary files made so far. *)
Definition answer (X : Type) (e : extE Z (list Z) unit X) (w : nat) : X * nat :=
  match e in extE _ _ _ T return T * nat with
  | PreprocessRefAudioText _ _ _ _ _ _ => ((lit "ref.wav", lit "hello"), w)
  | InferProcess _ _ _ _ _ _ _ _ _ => (([1; 2; 3]%Z, 24000%Z, tt), w)
  | NamedTemporaryFile _ _ _ suffix => (lit "tmp" ++ suffix, S w)
  | SfWrite _ _ _ _ _ _ => (tt, w)
  | RemoveSilenceForGeneratedWav _ _ _ _ => (tt, w)
  | TorchaudioLoad _ _ _ _ => (([2]%Z, 24000%Z), w)
  | SaveSpectrogram _ _ _ _ _ => (tt, w)
  | GrWarning _ _ _ _ => (tt, w)
  | ApplyChatTemplate _ _ _ _ => (lit "prompt", w)
  | Tokenizer _ _ _ _ => ([[1; 2; 3]%Z], w)
  | ModelGenerate _ _ _ _ _ _ _ => ([[1; 2; 3; 4; 5]%Z], w)
  | BatchDecode _ _ _ _ => ([lit "hi there"], w)
  end.

Definition role_system : str := Eval cbv in lit "system".

(** The history is the list at 0, the conversation state the list at 1. *)
Definition s0 : state Z (list Z) unit nat :=
  State Z (list Z) unit nat 0%nat []
    {[ 0%nat := []; 1%nat := [Message role_system (lit "be brief")] ]}.

(** The values the click on the generate button hands over after the three
    leading ones: no additional speech type, the model choice, the flag. *)
Definition args : list value :=
  replicate 297 VNone ++ [VStr (lit "F5-TTS"); VBool false].

(** The same with two additional speech types filled in, both named "Sad",
    and a third row that has a name and no audio. *)
Definition sad_args : list value :=
  ([VStr (lit "Sad"); VStr (lit "Sad"); VStr (lit "Mad")] ++ replicate 96 VNone)
  ++ ([VStr (lit "sad1.wav"); VStr (lit "sad2.wav"); VNone] ++ replicate 96 VNone)
  ++ ([VStr (lit "so sad"); VStr (lit "sadder"); VStr (lit "mad")]
        ++ replicate 96 VNone)
  ++ [VStr (lit "F5-TTS"); VBool false].

End Demo.


(** ** Witnesses *)

Lemma convert_numbers_to_arabic_text_spec_witness :
  Replaced Demo.isdigit Demo.isword Demo.digit_value Demo.num2words None
    (separate Demo.isdigit (lit "a7 b"))
    (convert_numbers_to_arabic_text Demo.isdigit Demo.isword Demo.digit_value
       Demo.num2words (lit "a7 b")).
Proof.
  apply convert_numbers_to_arabic_text_spec.
  - intros c Hc. unfold Demo.isword. by rewrite Hc.
  - intros c. unfold islatin, Demo.isdigit.
    destruct (N.leb_spec 48 c), (N.leb_spec c 57), (N.leb_spec 65 c),
      (N.leb_spec c 90), (N.leb_spec 97 c), (N.leb_spec c 122);
      cbn; intros; (reflexivity || discriminate || lia).
  - reflexivity.
Defined.


Lemma generate_multistyle_speech_spec_witness :
  Demo.sad_args !! 297%nat = Some (VStr (lit "F5-TTS")) ∧
  Demo.sad_args !! 298%nat = Some (VBool false) ∧
  ∃ (speech_types : gmap value speech_type) regular,
    (∀ k, speech_types !! k =
          speech_type_named (VStr (lit "regular.wav")) (VStr (lit "hello"))
            (slice Demo.sad_args 0 99) (slice Demo.sad_args 99 198)
            (slice Demo.sad_args 198 297) k) ∧
    speech_type_named (VStr (lit "regular.wav")) (VStr (lit "hello"))
      (slice Demo.sad_args 0 99) (slice Demo.sad_args 99 198)
      (slice Demo.sad_args 198 297) (VStr Regular) = Some regular ∧
    generate_multistyle_speech Demo.isdigit Demo.isword Demo.digit_value
      Demo.num2words Demo.lower Z (list Z) unit Demo.squeeze_cpu_numpy nat
      Demo.answer (VStr (lit "regular.wav")) (VStr (lit "hello"))
      (lit "hi {Sad} 7 cats {Mad} grr") Demo.sad_args Demo.s0 =
    synthesize_segments Demo.isdigit Demo.isword Demo.digit_value
      Demo.num2words Demo.lower Z (list Z) unit Demo.squeeze_cpu_numpy nat
      Demo.answer speech_types regular (VStr (lit "F5-TTS")) (VBool false)
      (parse_speechtypes_text (lit "hi {Sad} 7 cats {Mad} grr")) Demo.s0.
Proof.
  split; [reflexivity|]. split; [reflexivity|].
  apply generate_multistyle_speech_spec; reflexivity.
Defined.

Lemma process_audio_input_spec_witness :
  ∃ s1 s',
    generate_response Z (list Z) unit nat Demo.answer 1%nat
      (with_user_message Z (list Z) unit nat 0%nat 1%nat (lit "hello") Demo.s0)
      = (Ok _ (lit "hi there"), s1) ∧
    process_audio_input Z (list Z) unit nat Demo.answer VNone (lit "hello")
      0%nat 1%nat Demo.s0 = (Ok _ (0%nat, 1%nat, []), s') ∧
    heap _ _ _ _ s' !!! 1%nat =
      [Message Demo.role_system (lit "be brief");
       Message role_user (lit "hello");
       Message role_assistant (lit "hi there")] ∧
    heap _ _ _ _ s' !!! 0%nat = [Turn (lit "hello") (Some (lit "hi there"))].
Proof.
  destruct (proj2 (process_audio_input_spec Z (list Z) unit nat Demo.answer
                     VNone (lit "hello") 0%nat 1%nat Demo.s0)
              ltac:(lia) (lit "hello") Demo.s0 (lit "hi there")
              (generate_response Z (list Z) unit nat Demo.answer 1%nat
                 (with_user_message Z (list Z) unit nat 0%nat 1%nat
                    (lit "hello") Demo.s0)).2
              eq_refl eq_refl ltac:(vm_compute; reflexivity))
    as (s' & Hrun & Hconv & Hhist & _).
  eexists _, s'. split; [vm_compute; reflexivity|]. split; [exact Hrun|].
  split; [exact Hconv|exact Hhist].
Defined.

Lemma validate_speech_types_spec_witness :
  length (replicate 99 (VStr [])) = 99%nat ∧
  replicate 99 (VStr []) !! 98%nat = Some (VStr []) ∧
  truthy (VStr []) = false ∧
  on_gen_text_change (lit "{Sad} hi") (VStr Regular) (replicate 99 (VStr [])) =
  gr_update_interactive
    (bool_decide
       (Forall (λ seg, VStr (style seg) ∈
                  configured_names (VStr Regular) (replicate 99 (VStr [])))
          (parse_speechtypes_text (lit "{Sad} hi")))).
Proof.
  split; [reflexivity|]. split; [reflexivity|]. split; [reflexivity|].
  apply (validate_speech_types_spec _ _ _ (VStr [])); reflexivity.
Defined.


(** ** Counterexamples *)

(** C8, as stated, fails when the regular name box is empty: the handler
    leaves an empty regular name out of the set.  Here the only style of the
    text is the empty one, which is the regular name, so no style is absent
    from the set as the specification describes it; the button is disabled
    all the same. *)
Lemma validate_speech_types_counterexample :
  ¬ (on_gen_text_change (lit "{} hi") (VStr []) (replicate 99 (VStr [])) =
       gr_update_interactive false
     ↔ Exists (λ seg, VStr (style seg) ∉
                 names_as_specified (VStr []) (replicate 99 (VStr [])))
         (parse_speechtypes_text (lit "{} hi"))).
Proof.
  intros [Hdisabled _].
  assert (parse_speechtypes_text (lit "{} hi") = [Segment [] (lit "hi")])
    as Hparse by (vm_compute; reflexivity).
  rewrite Hparse in Hdisabled.
  assert (on_gen_text_change (lit "{} hi") (VStr []) (replicate 99 (VStr [])) =
            gr_update_interactive false) as Hrun by (vm_compute; reflexivity).
  apply Hdisabled in Hrun.
  apply Exists_cons in Hrun as [Habsent|Hnil]; [|by apply Exists_nil in Hnil].
  apply Habsent. unfold names_as_specified. cbn [style]. set_solver.
Qed.

(** The handler reads 99 values of [speech_type_names], which holds 100: the
    name of the last additional row is never looked at.  Here it is the
    only style of the text, and the button is disabled. *)
Lemma validate_speech_types_ignores_last_name :
  VStr (lit "X") ∈
    configured_names (VStr Regular) (replicate 98 (VStr []) ++ [VStr (lit "X")]) ∧
  parse_speechtypes_text (lit "{X} hi") = [Segment (lit "X") (lit "hi")] ∧
  on_gen_text_change (lit "{X} hi") (VStr Regular)
    (replicate 98 (VStr []) ++ [VStr (lit "X")]) =
    gr_update_interactive false.
Proof.
  split; [|split; vm_compute; reflexivity].
  unfold configured_names. apply elem_of_list_to_set, list_elem_of_In.
  apply filter_In. split; [|reflexivity].
  apply in_cons, in_or_app. right. by left.
Qed.




(** ** Instances of the further properties *)

Module Studio.

(** The libraries of [Demo], with the transcription of a recording and the
    strings [batch_decode] returns to be chosen. *)
Definition answer (transcription : str) (decoded : list str)
    (X : Type) (e : extE Z (list Z) unit X) (w : nat) : X * nat :=
  match e in extE _ _ _ T return T * nat with
  | PreprocessRefAudioText _ _ _ _ _ _ => ((lit "rec.wav", transcription), w)
  | BatchDecode _ _ _ _ => (decoded, w)
  | e' => Demo.answer _ e' w
  end.

(** A chat in which one message has been answered. *)
Definition s1 : state Z (list Z) unit nat :=
  State Z (list Z) unit nat 0%nat []
    {[ 0%nat := [Turn (lit "hello") (Some (lit "hi there"))];
       1%nat := [Message Demo.role_system (lit "be brief");
                 Message role_user (lit "hello");
                 Message role_assistant (lit "hi there")] ]}.

(** What the handler of the generate button takes when the first
    additional speech type is "Sad". *)
Definition args : list value :=
  (VStr (lit "Sad") :: replicate 98 VNone)
  ++ (VStr (lit "sad.wav") :: replicate 98 VNone)
  ++ (VStr (lit "so sad") :: replicate 98 VNone)
  ++ [VStr (lit "F5-TTS"); VBool false].

(** The boxes of a page on which no additional speech type is filled in. *)
Definition name_inputs : list value := replicate 99 (VStr []).
Definition audio_inputs : list value := replicate 99 VNone.
Definition ref_text_inputs : list value := replicate 99 (VStr []).

(** What a click on the generate button hands over on that page. *)
Definition click_args : list value :=
  speech_type_names (VStr Regular) name_inputs ++ audio_inputs
    ++ ref_text_inputs ++ [VStr (lit "F5-TTS"); VBool false].

End Studio.

Abbreviation demo_convert :=
  (convert_numbers_to_arabic_text Demo.isdigit Demo.isword Demo.digit_value
     Demo.num2words) (only parsing).
Abbreviation demo_normalized :=
  (normalized Demo.isdigit Demo.isword Demo.digit_value Demo.num2words
     Demo.lower) (only parsing).
Abbreviation demo_generate_multistyle_speech :=
  (generate_multistyle_speech Demo.isdigit Demo.isword Demo.digit_value
     Demo.num2words Demo.lower Z (list Z) unit Demo.squeeze_cpu_numpy nat
     Demo.answer) (only parsing).
Abbreviation demo_calls_since := (calls_since Z (list Z) unit nat) (only parsing).
Abbreviation demo_heap := (heap Z (list Z) unit nat) (only parsing).

Lemma demo_digit_is_word c : Demo.isdigit c = true → Demo.isword c = true.
Proof. intros Hc. unfold Demo.isword. by rewrite Hc. Qed.

Lemma demo_latin_not_digit c : islatin c = true → Demo.isdigit c = false.
Proof.
  unfold islatin, Demo.isdigit.
  destruct (N.leb_spec 48 c), (N.leb_spec c 57), (N.leb_spec 65 c),
    (N.leb_spec c 90), (N.leb_spec 97 c), (N.leb_spec c 122);
    cbn; intros; (reflexivity || discriminate || lia).
Qed.

(** A character is not in a string, by computation. *)
Ltac not_in_str := apply (bool_decide_unpack _); vm_compute; exact I.

Lemma parse_speechtypes_text_plain_witness :
  parse_speechtypes_text (lit "a } b") = labelled Regular (lit "a } b").
Proof. apply parse_speechtypes_text_plain. left. not_in_str. Defined.

Lemma insert_then_parse_witness :
  parse_speechtypes_text
    (typed_script (lit "Hi. ")
       [(0%nat, Some (lit "Sad"), lit "oh no. "); (1%nat, None, lit "ok")]) =
  labelled Regular (lit "Hi. ") ++
  flat_map (λ step, labelled (strip (or_else step.1.2 str_Ninguno))
                      (SPACE :: step.2))
    [(0%nat, Some (lit "Sad"), lit "oh no. "); (1%nat, None, lit "ok")].
Proof.
  apply insert_then_parse; [not_in_str|].
  repeat first [apply Forall_cons | apply Forall_nil | split]; not_in_str.
Defined.

Lemma convert_numbers_without_digits_witness :
  demo_convert (lit "hello") = lit "hello".
Proof. apply convert_numbers_without_digits. by repeat constructor. Defined.

Lemma convert_number_alone_witness :
  demo_convert (lit "7") = Demo.num2words (int Demo.digit_value (lit "7")).
Proof.
  apply convert_number_alone;
    [apply demo_digit_is_word|apply demo_latin_not_digit|done
    |by repeat constructor].
Defined.

Lemma convert_word_then_number_witness :
  demo_convert (lit "abc7") =
  lit "abc" ++ SPACE :: Demo.num2words (int Demo.digit_value (lit "7")).
Proof.
  apply (convert_word_then_number Demo.isdigit Demo.isword Demo.digit_value
           Demo.num2words demo_digit_is_word demo_latin_not_digit
           (lit "abc") (lit "7"));
    [reflexivity|reflexivity|done|by repeat constructor|done
    |by repeat constructor].
Defined.

Lemma convert_number_after_other_letter_witness :
  demo_convert (95 :: lit "7") = 95 :: lit "7".
Proof.
  apply (convert_number_after_other_letter Demo.isdigit Demo.isword
           Demo.digit_value Demo.num2words demo_digit_is_word
           demo_latin_not_digit 95 (lit "7"));
    [reflexivity|reflexivity|reflexivity|by repeat constructor].
Defined.

Lemma generate_multistyle_speech_short_args_witness :
  demo_generate_multistyle_speech (VStr (lit "regular.wav")) (VStr (lit "hello"))
    (lit "hi") [VStr (lit "F5-TTS"); VBool false] Demo.s0 =
  (Raise _ IndexError, Demo.s0).
Proof. apply generate_multistyle_speech_short_args. cbn. lia. Defined.

Lemma generate_multistyle_speech_nothing_witness :
  ∃ s',
    demo_generate_multistyle_speech (VStr (lit "regular.wav"))
      (VStr (lit "hello")) (lit "{Sad}  ") Demo.args Demo.s0 = (Ok _ None, s') ∧
    warnings Z (list Z) unit (demo_calls_since Demo.s0 s') = [no_audio_warning] ∧
    length (demo_calls_since Demo.s0 s') = 1%nat ∧
    demo_heap s' = demo_heap Demo.s0.
Proof.
  apply (generate_multistyle_speech_nothing Demo.isdigit Demo.isword
           Demo.digit_value Demo.num2words Demo.lower Z (list Z) unit
           Demo.squeeze_cpu_numpy nat Demo.answer
           (VStr (lit "regular.wav")) (VStr (lit "hello")) (lit "{Sad}  ")
           Demo.args (VStr (lit "F5-TTS")) (VBool false) Demo.s0);
    [reflexivity|reflexivity|vm_compute; reflexivity].
Defined.

Lemma configured_style_is_used_witness :
  ∃ r s',
    demo_generate_multistyle_speech (VStr (lit "regular.wav"))
      (VStr (lit "hello")) (lit "{Sad} 7 cats") Studio.args Demo.s0
      = (Ok _ r, s') ∧
    ∀ i seg ty,
      parse_speechtypes_text (lit "{Sad} 7 cats") !! i = Some seg →
      speech_types_of (VStr (lit "regular.wav")) (VStr (lit "hello"))
        Studio.args !! VStr (style seg) = Some ty →
      references_used Z (list Z) unit (demo_calls_since Demo.s0 s') !! i =
        Some (audio ty, ref_text ty).
Proof.
  apply (configured_style_is_used Demo.isdigit Demo.isword
           Demo.digit_value Demo.num2words Demo.lower Z (list Z) unit
           Demo.squeeze_cpu_numpy nat Demo.answer
           (VStr (lit "regular.wav")) (VStr (lit "hello")) (lit "{Sad} 7 cats")
           Studio.args (VStr (lit "F5-TTS")) (VBool false) Demo.s0);
    reflexivity.
Defined.

Lemma on_generate_click_shifted_witness :
  slice Studio.click_args 0 99 = VStr Regular :: take 98 Studio.name_inputs ∧
  slice Studio.click_args 99 198 =
    drop 98 Studio.name_inputs ++ take 98 Studio.audio_inputs ∧
  slice Studio.click_args 198 297 =
    drop 98 Studio.audio_inputs ++ take 98 Studio.ref_text_inputs ∧
  Studio.click_args !! 297%nat = Studio.ref_text_inputs !! 98%nat ∧
  Studio.click_args !! 298%nat = Some (VStr (lit "F5-TTS")).
Proof.
  apply (on_generate_click_shifted (VStr Regular) Studio.name_inputs
           Studio.audio_inputs Studio.ref_text_inputs (VStr (lit "F5-TTS"))
           (VBool false)); reflexivity.
Defined.

Lemma on_generate_click_always_removes_silence_witness :
  ∃ r s',
    on_generate_click Demo.isdigit Demo.isword Demo.digit_value Demo.num2words
      Demo.lower Z (list Z) unit Demo.squeeze_cpu_numpy nat Demo.answer
      (VStr (lit "regular.wav")) (VStr (lit "hello")) (lit "one {Sad} two")
      (VStr Regular) Studio.name_inputs Studio.audio_inputs
      Studio.ref_text_inputs (VStr (lit "F5-TTS")) (VBool false) Demo.s0
      = (Ok _ r, s') ∧
    length (silence_removals Z (list Z) unit (demo_calls_since Demo.s0 s')) =
      length (parse_speechtypes_text (lit "one {Sad} two")).
Proof.
  apply on_generate_click_always_removes_silence; reflexivity.
Defined.

Lemma validate_speech_types_plain_witness :
  validate_speech_types (lit "hello") (VStr (lit "Normal"))
    (replicate 100 (VStr [])) =
  gr_update_interactive
    (bool_decide
       (strip (lit "hello") = [] ∨
        VStr Regular ∈
          configured_names (VStr (lit "Normal"))
            (take 99 (replicate 100 (VStr []))))).
Proof. apply validate_speech_types_plain. left. not_in_str. Defined.

Lemma add_then_delete_round_trip_witness :
  run_clicks (replicate 2 Add ++ [Add; Delete 2]) = run_clicks (replicate 2 Add).
Proof. apply add_then_delete_round_trip. lia. Defined.

Lemma generate_response_decodes_continuation_witness :
  ∃ s',
    generate_response Z (list Z) unit nat Demo.answer 1%nat Demo.s0 =
      (Ok _ (lit "hi there"), s') ∧
    demo_calls_since Demo.s0 s' =
      [Called Z (list Z) unit _ (ApplyChatTemplate Z (list Z) unit (demo_heap Demo.s0 !!! 1%nat))
         (lit "prompt");
       Called Z (list Z) unit _ (Tokenizer Z (list Z) unit [lit "prompt"]) [[1; 2; 3]%Z];
       Called Z (list Z) unit _ (ModelGenerate Z (list Z) unit [[1; 2; 3]%Z] 512 (7 # 10)
                 (95 # 100)) [[1; 2; 3; 4; 5]%Z];
       Called Z (list Z) unit _ (BatchDecode Z (list Z) unit [[4; 5]%Z]) [lit "hi there"]].
Proof.
  eexists. split.
  - apply (generate_response_decodes_continuation Z (list Z) unit nat
             Demo.answer 1%nat Demo.s0 (lit "prompt") 0%nat [1; 2; 3]%Z 0%nat
             [4; 5]%Z 0%nat (lit "hi there") [] 0%nat); reflexivity.
  - reflexivity.
Defined.

Lemma process_audio_input_blank_transcription_witness :
  ∃ s',
    process_audio_input Z (list Z) unit nat (Studio.answer (lit "  ") [])
      (VStr (lit "rec.wav")) (lit "typed") 0%nat 1%nat Demo.s0 =
      (Ok _ (0%nat, 1%nat, []), s') ∧
    demo_heap s' = demo_heap Demo.s0 ∧
    demo_calls_since Demo.s0 s' =
      [Called Z (list Z) unit _ (PreprocessRefAudioText Z (list Z) unit (VStr (lit "rec.wav"))
                 (VStr (lit "typed")) None)
         (lit "rec.wav", lit "  ")].
Proof.
  exact (process_audio_input_blank_transcription Z (list Z) unit nat
           (Studio.answer (lit "  ") []) (VStr (lit "rec.wav")) (lit "typed")
           0%nat 1%nat Demo.s0 eq_refl eq_refl).
Defined.

Lemma process_audio_input_reply_fails_witness :
  ∃ s1,
    process_audio_input Z (list Z) unit nat (Studio.answer (lit "hello") [])
      VNone (lit "hello") 0%nat 1%nat Demo.s0 = (Raise _ IndexError, s1) ∧
    demo_heap s1 !!! 1%nat =
      [Message Demo.role_system (lit "be brief");
       Message role_user (lit "hello")] ∧
    demo_heap s1 !!! 0%nat = [Turn (lit "hello") None].
Proof.
  eexists.
  apply (process_audio_input_reply_fails Z (list Z) unit nat
           (Studio.answer (lit "hello") []) VNone (lit "hello") 0%nat 1%nat
           Demo.s0 (lit "hello") Demo.s0 IndexError);
    [lia|reflexivity|reflexivity|vm_compute; reflexivity].
Defined.

Lemma generate_audio_response_nothing_to_say_witness :
  generate_audio_response Demo.isdigit Demo.isword Demo.digit_value
    Demo.num2words Demo.lower Z (list Z) unit Demo.squeeze_cpu_numpy nat
    Demo.answer 0%nat (VStr (lit "ref.wav")) (VStr (lit "hello"))
    (VStr (lit "F5-TTS")) (VBool false) Demo.s0 = (Ok _ None, Demo.s0).
Proof.
  apply generate_audio_response_nothing_to_say. left. reflexivity.
Defined.

Lemma generate_audio_response_speaks_last_reply_witness :
  ∃ audio_result s',
    generate_audio_response Demo.isdigit Demo.isword Demo.digit_value
      Demo.num2words Demo.lower Z (list Z) unit Demo.squeeze_cpu_numpy nat
      Demo.answer 0%nat (VStr (lit "ref.wav")) (VStr (lit "hello"))
      (VStr (lit "F5-TTS")) (VBool false) Studio.s1 =
      (Ok _ (Some audio_result), s') ∧
    (∃ path,
       infer Demo.isdigit Demo.isword Demo.digit_value Demo.num2words
         Demo.lower Z (list Z) unit Demo.squeeze_cpu_numpy nat Demo.answer
         (VStr (lit "ref.wav")) (VStr (lit "hello")) (lit "hi there")
         (VStr (lit "F5-TTS")) (VBool false) (15 # 100) 1 py_print Studio.s1 =
         (Ok _ (audio_result, path), s')) ∧
    references_used Z (list Z) unit (demo_calls_since Studio.s1 s') =
      [(VStr (lit "ref.wav"), VStr (lit "hello"))] ∧
    infer_process_texts Z (list Z) unit (demo_calls_since Studio.s1 s') =
      [demo_normalized (lit "hi there")] ∧
    demo_heap s' = demo_heap Studio.s1.
Proof.
  apply (generate_audio_response_speaks_last_reply Demo.isdigit Demo.isword
           Demo.digit_value Demo.num2words Demo.lower Z (list Z) unit
           Demo.squeeze_cpu_numpy nat Demo.answer 0%nat (VStr (lit "ref.wav"))
           (VStr (lit "hello")) (VStr (lit "F5-TTS")) (VBool false) Studio.s1
           [] (lit "hello") (lit "hi there")); reflexivity.
Defined.

Lemma chat_turn_speaks_reply_witness :
  ∃ s' audio_result s'',
    process_audio_input Z (list Z) unit nat Demo.answer VNone (lit "hello")
      0%nat 1%nat Demo.s0 = (Ok _ (0%nat, 1%nat, []), s') ∧
    generate_audio_response Demo.isdigit Demo.isword Demo.digit_value
      Demo.num2words Demo.lower Z (list Z) unit Demo.squeeze_cpu_numpy nat
      Demo.answer 0%nat (VStr (lit "ref.wav")) (VStr (lit "hello"))
      (VStr (lit "F5-TTS")) (VBool false) s' = (Ok _ (Some audio_result), s'') ∧
    references_used Z (list Z) unit (demo_calls_since s' s'') =
      [(VStr (lit "ref.wav"), VStr (lit "hello"))] ∧
    infer_process_texts Z (list Z) unit (demo_calls_since s' s'') =
      [demo_normalized (lit "hi there")].
Proof.
  apply (chat_turn_speaks_reply Demo.isdigit Demo.isword
           Demo.digit_value Demo.num2words Demo.lower Z (list Z) unit
           Demo.squeeze_cpu_numpy nat Demo.answer VNone (lit "hello") 0%nat
           1%nat Demo.s0 (lit "hello") Demo.s0 (lit "hi there")
           (generate_response Z (list Z) unit nat Demo.answer 1%nat
              (with_user_message Z (list Z) unit nat 0%nat 1%nat
                 (lit "hello") Demo.s0)).2
           (VStr (lit "ref.wav")) (VStr (lit "hello")) (VStr (lit "F5-TTS"))
           (VBool false));
    [lia|reflexivity|reflexivity|vm_compute; reflexivity|reflexivity
    |reflexivity].
Defined.
